(** * Avito position tracker: a shallow embedding of [main.py]

    The development follows the layout of the source file:
    - [Str]: the string primitives of Python and of the in-page script that
      the program relies on ([in], [startswith], [split], ...);
    - [Matcher]: [is_mine];
    - [Config]: [load_config] over a dictionary of JSON values;
    - [Url]: [parse_category_path] with the parts of [urllib.parse] it calls;
    - [Extractor]: [EXTRACT_ADS_JS] and [extract_ads];
    - [Sink]: [save_results];
    - [Orchestrator]: [looks_like_captcha], [run], [main];
    - [Observations]: what the properties read off a run;
    - [Scenarios]: a concrete runtime, pages and worlds;
    - [Loaders]: [load_cities] and [load_keywords];
    - [Report]: [print_report];
    - [Signal]: [handle_signal] with its forced exit.
    The properties come after the definitions, module by module.

    A Python [str] is a Rocq [string] holding its UTF-8 bytes.  UTF-8 is
    self-synchronising, so containment and prefix tests on the bytes agree
    with the same tests on code points.

    The program talks to a browser, sleeps and writes files.  Each such call
    is recorded, in order, in the [trace] of the state that [run] threads
    through its loops; what the outside answers (how a navigation ends, what
    the page holds, when Ctrl+C is pressed) is given by a [World].  A pause
    [asyncio.sleep(random.uniform(lo, hi))] is recorded with its bounds.
    Logging is not recorded, writing an output file always succeeds, and the
    forced exit on a second Ctrl+C is left out. *)

From Stdlib Require Import ZArith Ascii String List Bool Lia.
From stdpp Require Import base option gmap strings list.

Local Open Scope Z_scope.
Local Open Scope string_scope.
Local Open Scope list_scope.
Set Warnings "-register-all".

(** ** String primitives *)

Module Str.

(** [s.startswith(prefix)] *)
Fixpoint startswith (s prefix : string) {struct prefix} : bool :=
  match prefix with
  | EmptyString => true
  | String c prefix' =>
      match s with
      | EmptyString => false
      | String d s' => if Ascii.eqb c d then startswith s' prefix' else false
      end
  end.

(** [needle in hay] (Python) and [hay.includes(needle)] (JavaScript). *)
Fixpoint str_in (needle hay : string) : bool :=
  startswith hay needle ||
  match hay with
  | EmptyString => false
  | String _ hay' => str_in needle hay'
  end.

(** [c in s] for a single character. *)
Fixpoint has_char (c : ascii) (s : string) : bool :=
  match s with
  | EmptyString => false
  | String d s' => Ascii.eqb c d || has_char c s'
  end.

(** [s.split(c, 1)]: the part before the first [c], and the part after it
    when [c] occurs. *)
Fixpoint split1 (c : ascii) (s : string) : string * option string :=
  match s with
  | EmptyString => (EmptyString, None)
  | String d s' =>
      if Ascii.eqb c d then (EmptyString, Some s')
      else let '(h, t) := split1 c s' in (String d h, t)
  end.

(** [s.split(c)[0]] *)
Definition before (c : ascii) (s : string) : string := fst (split1 c s).

(** [s.split(c)] *)
Fixpoint split (c : ascii) (s : string) : list string :=
  match s with
  | EmptyString => [EmptyString]
  | String d s' =>
      if Ascii.eqb c d then EmptyString :: split c s'
      else match split c s' with
           | [] => [String d EmptyString]
           | h :: t => String d h :: t
           end
  end.

(** [s[n:]] for [0 <= n] *)
Fixpoint drop (n : nat) (s : string) : string :=
  match n, s with
  | O, _ => s
  | S _, EmptyString => EmptyString
  | S n', String _ s' => drop n' s'
  end.

(** [s.replace(c, "")] *)
Fixpoint remove_char (c : ascii) (s : string) : string :=
  match s with
  | EmptyString => EmptyString
  | String d s' =>
      if Ascii.eqb c d then remove_char c s' else String d (remove_char c s')
  end.

(** [s.replace(c, d)] for single characters *)
Fixpoint replace_char (c d : ascii) (s : string) : string :=
  match s with
  | EmptyString => EmptyString
  | String e s' => String (if Ascii.eqb c e then d else e) (replace_char c d s')
  end.

(** Lower-casing of the letters the tracker meets: Basic Latin [A-Z] and the
    Russian capitals (U+0410..U+042F and U+0401), whose UTF-8 encodings are
    [D0 90]..[D0 AF] and [D0 81].  Every other byte is kept. *)
Fixpoint lower_ru (s : string) : string :=
  match s with
  | EmptyString => EmptyString
  | String c s' =>
      let n := N_of_ascii c in
      if ((65 <=? n) && (n <=? 90))%N then
        String (ascii_of_N (n + 32)) (lower_ru s')
      else if (n =? 208)%N then
        match s' with
        | String d s'' =>
            let m := N_of_ascii d in
            if ((144 <=? m) && (m <=? 159))%N then
              String c (String (ascii_of_N (m + 32)) (lower_ru s''))
            else if ((160 <=? m) && (m <=? 175))%N then
              String (ascii_of_N 209) (String (ascii_of_N (m - 32)) (lower_ru s''))
            else if (m =? 129)%N then
              String (ascii_of_N 209) (String (ascii_of_N 145) (lower_ru s''))
            else String c (String d (lower_ru s''))
        | EmptyString => String c EmptyString
        end
      else String c (lower_ru s')
  end.

End Str.

(** The case mapping ([str.lower]) and the two JavaScript string helpers of
    the in-page script ([String.prototype.trim] and the replacement of
    [/[\d.,]+·.*$/] by the empty string) come from the language runtimes.
    The program is embedded over any implementation of them. *)
Class Runtime := {
  lower : string -> string;
  js_trim : string -> string;
  js_strip_rating : string -> string;
}.

(** ** Keyword matcher *)

Module Matcher.
Section WithRuntime.
Context `{Runtime}.

(** [is_mine], lines 119-125. *)
Definition is_mine (title : string) (keyword_groups : list (list string)) : bool :=
  let title_lower := lower title in
  existsb
    (fun group => forallb (fun word => Str.str_in (lower word) title_lower) group)
    keyword_groups.

(** The wording of the specification: [word] occurs in [title] as a
    contiguous substring once both are lower-cased. *)
Definition contains_ci (word title : string) : Prop :=
  exists pre post, lower title = pre +:+ lower word +:+ post.

(** Some OR-group has all of its words contained in the title. *)
Definition matches_spec (title : string) (rule : list (list string)) : Prop :=
  exists group, In group rule /\ forall word, In word group -> contains_ci word title.

End WithRuntime.
End Matcher.

(** ** Configuration *)

Module Config.

(** What [json.load] produces.  A number with a fraction or an exponent is
    kept as its decimal mantissa and exponent. *)
Inductive json :=
| JNull
| JBool (b : bool)
| JInt (n : Z)
| JFloat (mantissa exponent : Z)
| JStr (s : string)
| JList (items : list json)
| JDict (items : list (string * json)).

(** The [defaults] dictionary of [load_config], in insertion order. *)
Definition defaults : list (string * json) :=
  [ ("headless", JBool true);
    ("min_delay", JInt 3);
    ("max_delay", JInt 12);
    ("long_pause_every", JInt 25);
    ("long_pause_min", JInt 15);
    ("long_pause_max", JInt 30);
    ("page_timeout", JInt 30000);
    ("selector_timeout", JInt 10000);
    ("max_retries", JInt 2) ].

(** [dict.setdefault(k, v)] *)
Definition setdefault (k : string) (v : json) (cfg : gmap string json) : gmap string json :=
  match cfg !! k with
  | Some _ => cfg
  | None => <[k := v]> cfg
  end.

(** [load_config], lines 34-55.  [file] is [None] when the path does not
    exist, and the object read from it otherwise. *)
Definition load_config (file : option (gmap string json)) : gmap string json :=
  let cfg := match file with Some c => c | None => ∅ end in
  foldl (fun cfg kv => setdefault kv.1 kv.2 cfg) cfg defaults.

(** The default of a key, when it is a recognised one. *)
Fixpoint default_of (ds : list (string * json)) (k : string) : option json :=
  match ds with
  | [] => None
  | (k', v) :: ds' => if String.eqb k' k then Some v else default_of ds' k
  end.

(** The settings [run] reads, as the integers the defaults are. *)
Record ScanConfig := {
  headless : bool;
  min_delay : Z;
  max_delay : Z;
  long_pause_every : Z;
  long_pause_min : Z;
  long_pause_max : Z;
  page_timeout : Z;
  selector_timeout : Z;
  max_retries : Z;
}.

Definition get_int (cfg : gmap string json) (k : string) : option Z :=
  match cfg !! k with
  | Some (JInt n) => Some n
  | _ => None
  end.

Definition get_bool (cfg : gmap string json) (k : string) : option bool :=
  match cfg !! k with
  | Some (JBool b) => Some b
  | _ => None
  end.

(** The typed view of a loaded dictionary; [None] when a setting is not of
    the type of its default. *)
Definition scan_config (cfg : gmap string json) : option ScanConfig :=
  h ← get_bool cfg "headless";
  d1 ← get_int cfg "min_delay";
  d2 ← get_int cfg "max_delay";
  e ← get_int cfg "long_pause_every";
  l1 ← get_int cfg "long_pause_min";
  l2 ← get_int cfg "long_pause_max";
  pt ← get_int cfg "page_timeout";
  st ← get_int cfg "selector_timeout";
  r ← get_int cfg "max_retries";
  Some {| headless := h; min_delay := d1; max_delay := d2; long_pause_every := e;
          long_pause_min := l1; long_pause_max := l2; page_timeout := pt;
          selector_timeout := st; max_retries := r |}.

End Config.

(** The exceptions that leave the functions embedded here. *)
Inductive exn :=
| ValueError          (* [parse_category_path], line 72 *)
| NavigationError     (* [page.goto] of the warm-up: timeout, network failure *)
| ZeroDivisionError.  (* [i % cfg["long_pause_every"]], line 422 *)

(** ** URL parsing *)

Module Url.

Definition tab : ascii := "009"%char.
Definition lf : ascii := "010"%char.
Definition cr : ascii := "013"%char.

Definition in_range (lo hi : N) (c : ascii) : bool :=
  ((lo <=? N_of_ascii c) && (N_of_ascii c <=? hi))%N.

Definition is_ascii_alpha (c : ascii) : bool := in_range 65 90 c || in_range 97 122 c.
Definition is_digit (c : ascii) : bool := in_range 48 57 c.

(** [urllib.parse.scheme_chars] *)
Definition is_scheme_char (c : ascii) : bool :=
  is_ascii_alpha c || is_digit c || Str.has_char c "+-.".

Fixpoint all_chars (p : ascii -> bool) (s : string) : bool :=
  match s with
  | EmptyString => true
  | String c s' => p c && all_chars p s'
  end.

Fixpoint ascii_lower (s : string) : string :=
  match s with
  | EmptyString => EmptyString
  | String c s' =>
      String (if in_range 65 90 c then ascii_of_N (N_of_ascii c + 32) else c) (ascii_lower s')
  end.

(** [url.lstrip(_WHATWG_C0_CONTROL_OR_SPACE)] *)
Fixpoint lstrip_c0 (s : string) : string :=
  match s with
  | EmptyString => EmptyString
  | String c s' => if in_range 0 32 c then lstrip_c0 s' else s
  end.

(** Removal of [_UNSAFE_URL_BYTES_TO_REMOVE]. *)
Definition remove_unsafe (s : string) : string :=
  Str.remove_char lf (Str.remove_char cr (Str.remove_char tab s)).

(** [_splitnetloc(url, 2)] on the text after the two slashes. *)
Fixpoint splitnetloc (s : string) : string * string :=
  match s with
  | EmptyString => (EmptyString, EmptyString)
  | String c s' =>
      if Str.has_char c "/?#" then (EmptyString, s)
      else let '(n, r) := splitnetloc s' in (String c n, r)
  end.

Record SplitResult := {
  scheme : string;
  netloc : string;
  path : string;
  query : string;
  fragment : string;
}.

(** [urllib.parse.urlsplit].  Its [ValueError]s (a malformed bracketed host,
    a netloc that changes under NFKC) need a [[], a []] or a non-ASCII
    character in the netloc; [parse_category_path] raises [ValueError] for
    every such URL anyway, so they are not told apart here. *)
Definition urlsplit (url0 : string) : SplitResult :=
  let url := remove_unsafe (lstrip_c0 url0) in
  let '(sch, url) :=
    match Str.split1 ":" url with
    | (String c pre', Some rest) =>
        if is_ascii_alpha c && all_chars is_scheme_char (String c pre')
        then (ascii_lower (String c pre'), rest)
        else (EmptyString, url)
    | _ => (EmptyString, url)
    end in
  let '(nl, url) :=
    if Str.startswith url "//" then splitnetloc (Str.drop 2 url)
    else (EmptyString, url) in
  let '(url, frag) := Str.split1 "#" url in
  let '(url, qry) := Str.split1 "?" url in
  {| scheme := sch; netloc := nl; path := url;
     query := default EmptyString qry; fragment := default EmptyString frag |}.

(** [urllib.parse.uses_params] *)
Definition uses_params : list string :=
  [""; "ftp"; "hdl"; "prospero"; "http"; "imap"; "https"; "shttp"; "rtsp";
   "rtspu"; "sip"; "sips"; "mms"; "sftp"; "tel"].

(** [_splitparams(url)[0]]: the path up to the first [;] of its last segment. *)
Fixpoint strip_params (s : string) : string :=
  match s with
  | EmptyString => EmptyString
  | String c s' =>
      if Str.has_char "/" s' then String c (strip_params s') else Str.before ";" s
  end.

(** [urllib.parse.urlparse], as far as [path] and [query] go. *)
Definition urlparse (url : string) : SplitResult :=
  let r := urlsplit url in
  if existsb (String.eqb (scheme r)) uses_params && Str.has_char ";" (path r)
  then {| scheme := scheme r; netloc := netloc r; path := strip_params (path r);
          query := query r; fragment := fragment r |}
  else r.

Definition hex_val (c : ascii) : option N :=
  let n := N_of_ascii c in
  if is_digit c then Some (n - 48)%N
  else if in_range 65 70 c then Some (n - 55)%N
  else if in_range 97 102 c then Some (n - 87)%N
  else None.

(** [urllib.parse.unquote_to_bytes]: every [%XY] with two hexadecimal digits
    becomes the byte it names, anything else is kept. *)
Fixpoint unquote_to_bytes (s : string) : string :=
  match s with
  | EmptyString => EmptyString
  | String c s' =>
      if Ascii.eqb c "%" then
        match s' with
        | String h (String l s'') =>
            match hex_val h, hex_val l with
            | Some a, Some b => String (ascii_of_N (16 * a + b)) (unquote_to_bytes s'')
            | _, _ => String c (unquote_to_bytes s')
            end
        | _ => String c (unquote_to_bytes s')
        end
      else String c (unquote_to_bytes s')
  end.

(** U+FFFD, the replacement character, in UTF-8. *)
Definition replacement : string :=
  String (ascii_of_N 239) (String (ascii_of_N 191) (String (ascii_of_N 189) EmptyString)).

Definition is_continuation (c : ascii) : bool := in_range 128 191 c.

(** The second byte of a sequence of three: a continuation byte that makes
    neither an overlong form (after [E0]) nor a surrogate (after [ED]). *)
Definition second_of_three (c c2 : ascii) : bool :=
  is_continuation c2 &&
  negb (if in_range 128 159 c2 then (N_of_ascii c =? 224)%N else (N_of_ascii c =? 237)%N).

(** The second byte of a sequence of four: a continuation byte that makes
    neither an overlong form (after [F0]) nor a code point above U+10FFFF
    (after [F4]). *)
Definition second_of_four (c c2 : ascii) : bool :=
  is_continuation c2 &&
  negb (if in_range 128 143 c2 then (N_of_ascii c =? 240)%N else (N_of_ascii c =? 244)%N).

(** [bytes.decode("utf-8", "replace")], the result again in UTF-8: a
    well-formed sequence is kept; a byte that cannot start a sequence, and a
    sequence cut short by a byte that cannot continue it or by the end of
    the input, each become one U+FFFD. *)
Fixpoint decode_replace (s : string) : string :=
  match s with
  | EmptyString => EmptyString
  | String c r1 =>
      if in_range 0 127 c then String c (decode_replace r1)
      else if in_range 194 223 c then
        match r1 with
        | EmptyString => replacement
        | String c2 r2 =>
            if is_continuation c2 then String c (String c2 (decode_replace r2))
            else replacement +:+ decode_replace r1
        end
      else if in_range 224 239 c then
        match r1 with
        | EmptyString => replacement
        | String c2 r2 =>
            if second_of_three c c2 then
              match r2 with
              | EmptyString => replacement
              | String c3 r3 =>
                  if is_continuation c3
                  then String c (String c2 (String c3 (decode_replace r3)))
                  else replacement +:+ decode_replace r2
              end
            else replacement +:+ decode_replace r1
        end
      else if in_range 240 244 c then
        match r1 with
        | EmptyString => replacement
        | String c2 r2 =>
            if second_of_four c c2 then
              match r2 with
              | EmptyString => replacement
              | String c3 r3 =>
                  if is_continuation c3 then
                    match r3 with
                    | EmptyString => replacement
                    | String c4 r4 =>
                        if is_continuation c4
                        then String c (String c2 (String c3 (String c4 (decode_replace r4))))
                        else replacement +:+ decode_replace r3
                    end
                  else replacement +:+ decode_replace r2
              end
            else replacement +:+ decode_replace r1
        end
      else replacement +:+ decode_replace r1
  end.

(** The loop of [unquote] over the runs of ASCII characters, [run] being the
    run read so far: a run is unquoted to bytes and decoded, the characters
    between two runs are kept. *)
Fixpoint unquote_runs (run s : string) : string :=
  match s with
  | EmptyString => decode_replace (unquote_to_bytes run)
  | String c s' =>
      if in_range 0 127 c then unquote_runs (run +:+ String c EmptyString) s'
      else decode_replace (unquote_to_bytes run) +:+ String c (unquote_runs EmptyString s')
  end.

(** [urllib.parse.unquote(s)], with its defaults [encoding="utf-8"] and
    [errors="replace"]. *)
Definition unquote (s : string) : string :=
  if Str.has_char "%" s then unquote_runs EmptyString s else s.

(** What [parse_qsl] does to a name and to a value. *)
Definition unquote_plus (s : string) : string := unquote (Str.replace_char "+" " " s).

(** [urllib.parse.parse_qsl] with its default arguments: fields are
    separated by [&], a field without [=] or with a blank value is dropped. *)
Definition parse_qsl (qs : string) : list (string * string) :=
  match qs with
  | EmptyString => []
  | _ =>
      flat_map
        (fun name_value =>
           match Str.split1 "=" name_value with
           | (name, Some (String c v)) => [(unquote_plus name, unquote_plus (String c v))]
           | _ => []
           end)
        (Str.split "&" qs)
  end.

(** [urllib.parse.parse_qs] *)
Definition parse_qs (qs : string) : gmap string (list string) :=
  foldl
    (fun d nv =>
       match d !! nv.1 with
       | Some vs => <[nv.1 := vs ++ [nv.2]]> d
       | None => <[nv.1 := [nv.2]]> d
       end)
    ∅ (parse_qsl qs).

Definition hex_digit (n : N) : ascii :=
  if (n <? 10)%N then ascii_of_N (48 + n) else ascii_of_N (55 + n).

(** The characters [quote] never escapes. *)
Definition always_safe (c : ascii) : bool :=
  is_ascii_alpha c || is_digit c || Str.has_char c "_.-~".

(** [urllib.parse.quote_plus(s)] on the UTF-8 bytes. *)
Fixpoint quote_plus (s : string) : string :=
  match s with
  | EmptyString => EmptyString
  | String c s' =>
      if always_safe c then String c (quote_plus s')
      else if Ascii.eqb c " " then String "+" (quote_plus s')
      else
        let n := N_of_ascii c in
        String "%" (String (hex_digit (n / 16)) (String (hex_digit (n mod 16)) (quote_plus s')))
  end.

(** [urlencode({"q": v})] *)
Definition urlencode_q (v : string) : string := "q=" +:+ quote_plus v.

Definition prefixes : list string :=
  ["https://www.avito.ru/all/"; "http://www.avito.ru/all/"].

(** None of the characters of [cs] occurs in [s]. *)
Fixpoint free_of (cs s : string) : bool :=
  match cs with
  | EmptyString => true
  | String c cs' => negb (Str.has_char c s) && free_of cs' s
  end.

(** The characters [urlsplit] deletes wherever they stand. *)
Definition unsafe : string := String tab (String cr (String lf EmptyString)).

(** A category path is a path: it holds no query, fragment or parameter
    delimiter.  The value of [q] ends at the next field or at the fragment. *)
Definition path_stops : string := "?#;" +:+ unsafe.
Definition value_stops : string := "&#" +:+ unsafe.

(** The loop of lines 65-71 over the accepted prefixes, ending in the
    [raise] of line 72. *)
Fixpoint try_prefixes (ps : list string) (url : string) (parsed : SplitResult)
  : exn + (string * option string) :=
  match ps with
  | [] => inl ValueError
  | prefix :: ps' =>
      if Str.startswith url prefix then
        let path := Str.drop (String.length "/all/") (path parsed) in
        let qs := parse_qs (query parsed) in
        match qs !! "q" with
        | Some vs => inr (path, Some (urlencode_q (default EmptyString (head vs))))
        | None => inr (path, None)
        end
      else try_prefixes ps' url parsed
  end.

(** [parse_category_path], lines 58-72. *)
Definition parse_category_path (url : string) : exn + (string * option string) :=
  let parsed := urlparse url in
  try_prefixes prefixes url parsed.

End Url.

(** ** Extractor *)

Module Extractor.

(** An anchor element, as the script reads it. *)
Record Link := {
  href : string;
  textContent : string;
}.

(** A [[data-marker="item"]] element: its [a[data-marker="item-title"]] when
    there is one, its rendered text, and its anchors in document order. *)
Record Item := {
  titleLink : option Link;
  innerText : string;
  allLinks : list Link;
}.

(** The object pushed for one item. *)
Record Ad := {
  ad_position : Z;
  ad_title : string;
  ad_url : string;
  ad_is_reklama : bool;
  seller_name : string;
  seller_url : string;
}.

Section WithRuntime.
Context `{Runtime}.

(** The loop over [allLinks] with its [break], lines 254-263. *)
Definition seller (links : list Link) : string * string :=
  match
    find (fun a => negb (String.eqb (href a) "") &&
                   Str.str_in "src=search_seller_info" (href a)) links
  with
  | Some a => (js_trim (js_strip_rating (js_trim (textContent a))),
               Str.before "?" (href a))
  | None => ("", "")
  end.

(** The callback of [items.forEach], lines 245-273. *)
Definition extract_item (index : nat) (item : Item) : Ad :=
  {| ad_position := Z.of_nat index + 1;
     ad_title := match titleLink item with
                 | Some a => js_trim (textContent a)
                 | None => ""
                 end;
     ad_url := match titleLink item with
               | Some a => Str.before "?" (href a)
               | None => ""
               end;
     ad_is_reklama := Str.str_in "Реклама" (innerText item);
     seller_name := (seller (allLinks item)).1;
     seller_url := (seller (allLinks item)).2 |}.

(** [EXTRACT_ADS_JS], lines 237-277, on the catalog container: [None] when
    the page has none, its items in document order otherwise. *)
Definition EXTRACT_ADS_JS (container : option (list Item)) : option (list Ad) :=
  match container with
  | None => None
  | Some items => Some (imap extract_item items)
  end.

End WithRuntime.
End Extractor.

(** ** Records and the persistence sink *)

Module Sink.
Import Extractor.

(** A record of [collected_results]: the extracted object with the keys
    [run] adds to it. *)
Record AdRecord := {
  ad : Ad;
  city : string;
  is_mine : bool;
  _run_ts : string;
}.

Inductive cell :=
| CStr (s : string)
| CInt (n : Z)
| CBool (b : bool).

(** [r.items()], in the order the keys were inserted. *)
Definition items (r : AdRecord) : list (string * cell) :=
  [ ("ad_position", CInt (ad_position (ad r)));
    ("ad_title", CStr (ad_title (ad r)));
    ("ad_url", CStr (ad_url (ad r)));
    ("ad_is_reklama", CBool (ad_is_reklama (ad r)));
    ("seller_name", CStr (seller_name (ad r)));
    ("seller_url", CStr (seller_url (ad r)));
    ("city", CStr (city r));
    ("is_mine", CBool (is_mine r));
    ("_run_ts", CStr (_run_ts r)) ].

Definition fieldnames : list string :=
  ["city"; "ad_position"; "ad_title"; "ad_url";
   "ad_is_reklama"; "is_mine"; "seller_name"; "seller_url"].

Fixpoint get (k : string) (d : list (string * cell)) : option cell :=
  match d with
  | [] => None
  | (k', v) :: d' => if String.eqb k' k then Some v else get k d'
  end.

(** A row of [csv.DictWriter(f, fieldnames, extrasaction="ignore")]. *)
Definition csv_row (r : AdRecord) : list cell :=
  map (fun k => default (CStr "") (get k (items r))) fieldnames.

(** [{k: v for k, v in r.items() if not k.startswith("_")}] *)
Definition clean (r : AdRecord) : list (string * cell) :=
  List.filter (fun kv => negb (Str.startswith kv.1 "_")) (items r).

(** The content of an output file. *)
Inductive content :=
| Csv (header : list string) (rows : list (list cell))
| Json (records : list (list (string * cell))).

Definition csv_path (ts : string) : string := "results_" +:+ ts +:+ ".csv".
Definition json_path (ts : string) : string := "results_" +:+ ts +:+ ".json".

(** [save_results], lines 128-153, on the content of [OUTPUT_DIR].  Both
    files are opened with mode ["w"]: a write replaces the whole file. *)
Definition save_results (results : list AdRecord) (tag : string)
    (output : gmap string content) : gmap string content :=
  match results with
  | [] => output
  | r0 :: _ =>
      let ts := _run_ts r0 in
      <[json_path ts := Json (map clean results)]>
        (<[csv_path ts := Csv fieldnames (map csv_row results)]> output)
  end.

End Sink.

(** ** Scan orchestrator *)

Module Orchestrator.
Import Config Extractor Sink.

(** What the calls to the outside look like, in the order they are made. *)
Inductive event :=
| Launch (headless : bool)                     (* [create_browser] *)
| Goto (url : string) (timeout : Z)            (* [page.goto] *)
| Sleep (lo hi : Z)                            (* [asyncio.sleep(random.uniform(lo, hi))] *)
| WaitForSelector (timeout : Z)                (* [page.wait_for_selector] *)
| SmoothScroll                                 (* [smooth_scroll(page, random.randint(2, 4))] *)
| DebugHtml (city : string)                    (* [save_debug_html] *)
| SaveResults (results : list AdRecord) (tag : string)
| CloseBrowser
| PrintReport (results : list AdRecord).

(** The page after a navigation. *)
Record Page := {
  page_url : string;
  page_title : option string;        (* [None]: [page.title()] raises *)
  selector_found : bool;             (* [wait_for_selector] returns in time *)
  container : option (list Item);    (* the catalog container at evaluation *)
}.

Inductive nav :=
| NavRaises                          (* [page.goto] raises an [Exception] *)
| NavLoaded (page : Page).

(** What the outside does during one run. *)
Record World := {
  now : string;                      (* [datetime.now()] at line 331 *)
  warm_up : bool;                    (* the navigation of [warm_cookies] succeeds *)
  goto : Z -> Z -> nav;              (* target number, attempt number *)
  sigint : Z -> bool;                (* a first Ctrl+C arrives during this target *)
}.

(** The two globals, the counter of [run], the output directory and the
    calls made so far. *)
Record RunState := {
  collected_results : list AdRecord;
  shutdown_requested : bool;
  consecutive_errors : Z;
  output : gmap string content;
  trace : list event;
}.

Definition emit (e : event) (st : RunState) : RunState :=
  {| collected_results := collected_results st;
     shutdown_requested := shutdown_requested st;
     consecutive_errors := consecutive_errors st;
     output := output st;
     trace := trace st ++ [e] |}.

Definition emits (es : list event) (st : RunState) : RunState :=
  foldl (fun st e => emit e st) st es.

Definition set_consecutive_errors (n : Z) (st : RunState) : RunState :=
  {| collected_results := collected_results st;
     shutdown_requested := shutdown_requested st;
     consecutive_errors := n;
     output := output st;
     trace := trace st |}.

(** [handle_signal] on a first Ctrl+C, lines 449-450. *)
Definition handle_signal (st : RunState) : RunState :=
  {| collected_results := collected_results st;
     shutdown_requested := true;
     consecutive_errors := consecutive_errors st;
     output := output st;
     trace := trace st |}.

(** [collected_results.extend(ads)] *)
Definition extend (ads : list AdRecord) (st : RunState) : RunState :=
  {| collected_results := collected_results st ++ ads;
     shutdown_requested := shutdown_requested st;
     consecutive_errors := consecutive_errors st;
     output := output st;
     trace := trace st |}.

(** A call [save_results(collected_results, tag)]. *)
Definition flush (tag : string) (st : RunState) : RunState :=
  {| collected_results := collected_results st;
     shutdown_requested := shutdown_requested st;
     consecutive_errors := consecutive_errors st;
     output := save_results (collected_results st) tag (output st);
     trace := trace st ++ [SaveResults (collected_results st) tag] |}.

(** [range(n)] *)
Definition range (n : Z) : list Z := map Z.of_nat (seq 0 (Z.to_nat n)).

(** [enumerate(l, start)] *)
Fixpoint enumerate {A} (start : Z) (l : list A) : list (Z * A) :=
  match l with
  | [] => []
  | x :: l' => (start, x) :: enumerate (start + 1) l'
  end.

Inductive control :=
| Continue
| Break
| Raise (e : exn).

Inductive outcome :=
| NoTargets           (* line 338 *)
| Completed           (* the loop over the cities ran to its end *)
| Cancelled           (* line 355 *)
| EarlyAbort          (* line 419 *)
| Raised (e : exn).   (* an exception left [run] *)

Section Run.
Context `{Runtime}.
Variable world : World.

Definition url_hints : list string := ["captcha"; "challenge"; "blocked"; "showcaptcha"].
Definition title_hints : list string := ["доступ ограничен"; "проблема с ip"; "captcha"].

(** [looks_like_captcha], lines 308-320. *)
Definition looks_like_captcha (page : Page) : bool :=
  let url_lower := lower (page_url page) in
  if existsb (fun h => Str.str_in h url_lower) url_hints then true
  else
    match page_title page with
    | Some title =>
        if existsb (fun h => Str.str_in h (lower title)) title_hints then true
        else false
    | None => false
    end.

(** [extract_ads], lines 280-302: the calls it makes and what it returns. *)
Definition extract_ads (page : Page) (city : string) (cfg : ScanConfig)
  : list event * option (list Ad) :=
  if selector_found page then
    match EXTRACT_ADS_JS (container page) with
    | None => ([WaitForSelector (selector_timeout cfg); SmoothScroll; DebugHtml city], None)
    | Some ads => ([WaitForSelector (selector_timeout cfg); SmoothScroll], Some ads)
    end
  else ([WaitForSelector (selector_timeout cfg); DebugHtml city], None).

(** Lines 382-384 for one record. *)
Definition stamp (city run_ts : string) (keywords : list (list string)) (a : Ad) : AdRecord :=
  {| ad := a;
     city := city;
     is_mine := Matcher.is_mine (ad_title a) keywords;
     _run_ts := run_ts |}.

Variable cfg : ScanConfig.
Variable keywords : list (list string).

(** The retry loop of lines 360-412 over the remaining attempt numbers;
    returns [success]. *)
Fixpoint attempts_loop (attempts : list Z) (i : Z) (city url : string)
    (st : RunState) : RunState * bool :=
  match attempts with
  | [] => (st, false)
  | attempt :: rest =>
      let st := emit (Goto url (page_timeout cfg)) st in
      match goto world i attempt with
      | NavRaises => attempts_loop rest i city url (emit (Sleep 10 20) st)
      | NavLoaded page =>
          if looks_like_captcha page then
            attempts_loop rest i city url (emit (Sleep 60 120) st)
          else
            let '(calls, ads) := extract_ads page city cfg in
            let st := emits calls st in
            match ads with
            | None => attempts_loop rest i city url (emit (Sleep 10 20) st)
            | Some ads =>
                let ads := map (stamp city (now world) keywords) ads in
                let st := flush city (extend ads st) in
                (set_consecutive_errors 0 st, true)
            end
      end
  end.

(** Line 357. *)
Definition target_url (city category_path : string) (query : option string) : string :=
  "https://www.avito.ru/" +:+ city +:+ "/" +:+ category_path +:+
  match query with
  | Some (String c q) => "?" +:+ String c q
  | _ => ""
  end.

(** The delay between cities, lines 421-427. *)
Definition delay (i : Z) (st : RunState) : RunState * control :=
  if (long_pause_every cfg =? 0)%Z then (st, Raise ZeroDivisionError)
  else if (i mod long_pause_every cfg =? 0)%Z
       then (emit (Sleep (long_pause_min cfg) (long_pause_max cfg)) st, Continue)
       else (emit (Sleep (min_delay cfg) (max_delay cfg)) st, Continue).

(** The body of the loop over the cities after its shutdown test, lines
    357-427.  A first Ctrl+C during the target only sets the flag. *)
Definition city_body (category_path : string) (query : option string)
    (i : Z) (city : string) (st : RunState) : RunState * control :=
  let st := if sigint world i then handle_signal st else st in
  let url := target_url city category_path query in
  let '(st, success) := attempts_loop (range (max_retries cfg + 1)) i city url st in
  if success then delay i st
  else
    let st := set_consecutive_errors (consecutive_errors st + 1) st in
    if (5 <=? consecutive_errors st)%Z then (st, Break)
    else delay i st.

(** The loop of lines 352-427. *)
Fixpoint cities_loop (category_path : string) (query : option string)
    (targets : list (Z * string)) (st : RunState) : RunState * outcome :=
  match targets with
  | [] => (st, Completed)
  | (i, city) :: rest =>
      if shutdown_requested st then (st, Cancelled)
      else
        let '(st, c) := city_body category_path query i city st in
        match c with
        | Continue => cities_loop category_path query rest st
        | Break => (st, EarlyAbort)
        | Raise e => (st, Raised e)
        end
  end.

(** [run], lines 326-437. *)
Definition run (category_path : string) (cities : list string) (skip : Z)
    (query : option string) (st : RunState) : RunState * outcome :=
  let cities := if (0 <? skip)%Z then drop (Z.to_nat skip) cities else cities in
  match cities with
  | [] => (st, NoTargets)
  | _ =>
      let st := set_consecutive_errors 0 st in
      let st := emit (Launch (headless cfg)) st in
      let '(st, out) :=
        let st := emit (Goto "https://www.avito.ru" (page_timeout cfg)) st in
        if warm_up world
        then cities_loop category_path query (enumerate 1 cities) (emit (Sleep 3 5) st)
        else (st, Raised NavigationError) in
      let st := emit CloseBrowser st in
      match out with
      | Raised e => (st, Raised e)
      | _ =>
          let st := flush "" st in
          (emit (PrintReport (collected_results st)) st, out)
      end
  end.

End Run.

(** The state of a fresh process. *)
Definition initial (files : gmap string content) : RunState :=
  {| collected_results := [];
     shutdown_requested := false;
     consecutive_errors := 0;
     output := files;
     trace := [] |}.

(** [main], lines 456-486, from the parsed arguments and the files read.
    [run] is embedded for settings of the types of the defaults, a boolean
    and eight integers.  For a dictionary that holds a setting of another
    type the result is [None]: nothing is said here of such a run (the
    source sleeps a fractional delay as it is, and fails on a setting it
    cannot use only when it comes to use it). *)
Definition main `{Runtime} (world : World) (url : string) (skip : Z) (debug : bool)
    (cities : list string) (keywords : list (list string))
    (config_file : option (gmap string json)) (st : RunState)
  : option (RunState * outcome) :=
  match Url.parse_category_path url with
  | inl e => Some (st, Raised e)
  | inr (category_path, query) =>
      let cfg := load_config config_file in
      let cfg := if debug then <["headless" := JBool false]> cfg else cfg in
      c ← scan_config cfg;
      Some (run world c keywords category_path cities skip query st)
  end.

End Orchestrator.

(** ** What is observed of a run *)

Module Observations.
Import Extractor Sink Orchestrator.

Definition is_goto (e : event) : bool :=
  match e with
  | Goto _ _ => true
  | _ => false
  end.

(** The navigations among some calls. *)
Definition navigations (calls : list event) : nat := length (List.filter is_goto calls).

Definition is_block_pause (e : event) : bool :=
  match e with
  | Sleep lo hi => (lo =? 60)%Z && (hi =? 120)%Z
  | _ => false
  end.

(** The 60-120 second pauses among some calls. *)
Definition block_pauses (calls : list event) : nat :=
  length (List.filter is_block_pause calls).

Definition is_sleep (e : event) : bool :=
  match e with
  | Sleep _ _ => true
  | _ => false
  end.

Definition is_save (e : event) : bool :=
  match e with
  | SaveResults _ _ => true
  | _ => false
  end.

(** The block detector fires on the page of this attempt. *)
Definition blocked `{Runtime} (world : World) (i attempt : Z) : bool :=
  match goto world i attempt with
  | NavLoaded page => looks_like_captcha page
  | NavRaises => false
  end.

(** The state and the value of [success] when the retry loop of city number
    [i] is over (line 413), from the state at line 357. *)
Definition attempted `{Runtime} (world : World) (cfg : Config.ScanConfig)
    (keywords : list (list string)) (category_path : string) (query : option string)
    (i : Z) (city : string) (st : RunState) : RunState * bool :=
  attempts_loop world cfg keywords (range (Config.max_retries cfg + 1)) i city
    (target_url city category_path query)
    (if sigint world i then handle_signal st else st).




(** The two output files of the run hold exactly the records [rs]. *)
Definition persisted (rs : list AdRecord) (files : gmap string content) : Prop :=
  match rs with
  | [] => True
  | r0 :: _ =>
      files !! csv_path (_run_ts r0) = Some (Csv fieldnames (map csv_row rs)) /\
      files !! json_path (_run_ts r0) = Some (Json (map clean rs))
  end.

(** What one pass through the retry loop leaves behind: the calls it added,
    how many attempts [used] it took, and what became of the state. *)
Inductive attempts_summary `{Runtime} (world : World) (cfg : Config.ScanConfig)
    (keywords : list (list string)) (attempts : list Z) (i : Z) (city : string)
    (st st' : RunState) (success : bool) : Prop :=
| Summary (calls : list event) (used : nat)
    (as_trace : trace st' = trace st ++ calls)
    (as_navigations : navigations calls = used)
    (as_budget : (used <= length attempts)%nat)
    (as_blocks :
       block_pauses calls = length (List.filter (blocked world i) (take used attempts)))
    (as_flag : shutdown_requested st' = shutdown_requested st)
    (as_failed :
       success = false ->
       used = length attempts /\
       collected_results st' = collected_results st /\
       output st' = output st /\
       consecutive_errors st' = consecutive_errors st /\
       List.filter is_save calls = [])
    (as_succeeded :
       success = true ->
       exists last attempt page ecalls ads before,
         used = S last /\
         attempts !! last = Some attempt /\
         goto world i attempt = NavLoaded page /\
         looks_like_captcha page = false /\
         extract_ads page city cfg = (ecalls, Some ads) /\
         collected_results st' =
           collected_results st ++ map (stamp city (now world) keywords) ads /\
         output st' = save_results (collected_results st') city (output st) /\
         consecutive_errors st' = 0 /\
         calls = before ++ [SaveResults (collected_results st') city] /\
         List.filter is_save before = []).

(** The positions [1..n]. *)
Definition one_to (n : nat) : list Z := map Z.of_nat (seq 1 n).

End Observations.

(** ** A concrete runtime and concrete runs *)

Module Scenarios.
Import Config Extractor Sink Orchestrator.

Definition is_space (c : ascii) : bool := Url.in_range 9 13 c || Ascii.eqb c " ".

Fixpoint lstrip (s : string) : string :=
  match s with
  | EmptyString => EmptyString
  | String c s' => if is_space c then lstrip s' else s
  end.

Fixpoint rstrip (s : string) : string :=
  match s with
  | EmptyString => EmptyString
  | String c s' =>
      match rstrip s' with
      | EmptyString => if is_space c then EmptyString else String c EmptyString
      | r => String c r
      end
  end.

(** [String.prototype.trim] for ASCII white space. *)
Definition trim (s : string) : string := rstrip (lstrip s).

Definition in_class (c : ascii) : bool := Url.is_digit c || Str.has_char c ".,".

Fixpoint skip_class (s : string) : string :=
  match s with
  | EmptyString => EmptyString
  | String c s' => if in_class c then skip_class s' else s
  end.

(** U+2028 and U+2029 in UTF-8. *)
Definition line_separator : string :=
  String (ascii_of_N 226) (String (ascii_of_N 128) (String (ascii_of_N 168) EmptyString)).
Definition paragraph_separator : string :=
  String (ascii_of_N 226) (String (ascii_of_N 128) (String (ascii_of_N 169) EmptyString)).

(** No line terminator: [.] matches up to the end of the text. *)
Definition to_end (s : string) : bool :=
  negb (Str.has_char Url.lf s) && negb (Str.has_char Url.cr s) &&
  negb (Str.str_in line_separator s) && negb (Str.str_in paragraph_separator s).

(** [/[\d.,]+·.*$/] matches at the start of [s]. *)
Definition rating_here (s : string) : bool :=
  match s with
  | EmptyString => false
  | String c _ =>
      in_class c && Str.startswith (skip_class s) "·" && to_end (Str.drop 2 (skip_class s))
  end.

(** [s.replace(/[\d.,]+·.*$/, '')] *)
Fixpoint strip_rating (s : string) : string :=
  if rating_here s then EmptyString
  else match s with
       | EmptyString => EmptyString
       | String c s' => String c (strip_rating s')
       end.

Definition runtime : Runtime :=
  {| lower := Str.lower_ru; js_trim := trim; js_strip_rating := strip_rating |}.

Definition settings (retries every : Z) : ScanConfig :=
  {| headless := true; min_delay := 3; max_delay := 12;
     long_pause_every := every; long_pause_min := 15; long_pause_max := 30;
     page_timeout := 30000; selector_timeout := 10000; max_retries := retries |}.

Definition repair : Item :=
  {| titleLink := Some {| href := "https://www.avito.ru/moskva/uslugi/remont_1?context=abc";
                          textContent := " Ремонт телефонов недорого " |};
     innerText := "Ремонт телефонов недорого Реклама Мастер 4,8·120 отзывов";
     allLinks := [ {| href := "https://www.avito.ru/moskva/uslugi/remont_1?context=abc";
                      textContent := "Ремонт телефонов недорого" |};
                   {| href := "https://www.avito.ru/brands/master?src=search_seller_info";
                      textContent := "Мастер 4,8·120 отзывов" |} ] |}.

Definition sale : Item :=
  {| titleLink := Some {| href := "https://www.avito.ru/moskva/uslugi/prodazha_2";
                          textContent := "Продажа телефонов" |};
     innerText := "Продажа телефонов";
     allLinks := [] |}.

Definition listing : Page :=
  {| page_url := "https://www.avito.ru/moskva/uslugi";
     page_title := Some "Услуги в Москве";
     selector_found := true;
     container := Some [repair; sale] |}.


Definition block_page : Page :=
  {| page_url := "https://www.avito.ru/blocked";
     page_title := Some "Доступ ограничен: проблема с IP";
     selector_found := false;
     container := None |}.

(** Every navigation ends the same way and nobody presses Ctrl+C. *)
Definition always (n : nav) : World :=
  {| now := "20240101_120000"; warm_up := true;
     goto := fun _ _ => n; sigint := fun _ => false |}.


Definition keywords : list (list string) := [["ремонт"; "телефон"]].

(** Line 357 for the city [moskva], the category [uslugi] and no query. *)
Definition moskva_url : string := "https://www.avito.ru/moskva/uslugi".

(** The two records of [listing] for the city [moskva]. *)
Definition moskva_records : list AdRecord :=
  [ {| ad := {| ad_position := 1;
                ad_title := "Ремонт телефонов недорого";
                ad_url := "https://www.avito.ru/moskva/uslugi/remont_1";
                ad_is_reklama := true;
                seller_name := "Мастер";
                seller_url := "https://www.avito.ru/brands/master" |};
       city := "moskva"; is_mine := true; _run_ts := "20240101_120000" |};
    {| ad := {| ad_position := 2;
                ad_title := "Продажа телефонов";
                ad_url := "https://www.avito.ru/moskva/uslugi/prodazha_2";
                ad_is_reklama := false;
                seller_name := "";
                seller_url := "" |};
       city := "moskva"; is_mine := false; _run_ts := "20240101_120000" |} ].

End Scenarios.

(** ** Target list and keyword rule sources *)

Module Loaders.

Definition byte_is (n : N) (c : ascii) : bool := (N_of_ascii c =? n)%N.

(** The length in bytes of the white-space character at the head of [s], and
    0 when [s] does not start with one.  White space is what [str.isspace]
    accepts: U+0009..U+000D, U+001C..U+0020, U+0085, U+00A0, U+1680,
    U+2000..U+200A, U+2028, U+2029, U+202F, U+205F and U+3000. *)
Definition space_at (s : string) : nat :=
  match s with
  | EmptyString => 0
  | String c1 r1 =>
      if Url.in_range 9 13 c1 || Url.in_range 28 32 c1 then 1
      else
        match r1 with
        | EmptyString => 0
        | String c2 r2 =>
            if byte_is 194 c1 then (if byte_is 133 c2 || byte_is 160 c2 then 2 else 0)
            else
              match r2 with
              | EmptyString => 0
              | String c3 _ =>
                  if byte_is 225 c1 && byte_is 154 c2 && byte_is 128 c3 then 3
                  else if byte_is 226 c1 && byte_is 128 c2 &&
                          (Url.in_range 128 138 c3 || byte_is 168 c3 || byte_is 169 c3 || byte_is 175 c3)
                       then 3
                  else if byte_is 226 c1 && byte_is 129 c2 && byte_is 159 c3 then 3
                  else if byte_is 227 c1 && byte_is 128 c2 && byte_is 128 c3 then 3
                  else 0
              end
        end
  end%nat.

(** [s.lstrip()]; [skip] counts the bytes left of the white-space character
    being removed. *)
Fixpoint lstrip_from (skip : nat) (s : string) : string :=
  match s with
  | EmptyString => EmptyString
  | String _ s' =>
      match skip with
      | S k => lstrip_from k s'
      | O =>
          match space_at s with
          | O => s
          | S k => lstrip_from k s'
          end
      end
  end.

Definition lstrip (s : string) : string := lstrip_from 0 s.

(** [s.isspace() or not s] *)
Fixpoint all_space_from (skip : nat) (s : string) : bool :=
  match s with
  | EmptyString => true
  | String _ s' =>
      match skip with
      | S k => all_space_from k s'
      | O =>
          match space_at s with
          | O => false
          | S k => all_space_from k s'
          end
      end
  end.

Definition all_space (s : string) : bool := all_space_from 0 s.

(** [s.rstrip()] *)
Fixpoint rstrip (s : string) : string :=
  if all_space s then EmptyString
  else match s with
       | EmptyString => EmptyString
       | String c s' => String c (rstrip s')
       end.

(** [s.strip()] *)
Definition strip (s : string) : string := rstrip (lstrip s).

(** The pieces of [s] between its white-space characters, empty ones
    included. *)
Fixpoint pieces_from (skip : nat) (s : string) : list string :=
  match s with
  | EmptyString => [EmptyString]
  | String c s' =>
      match skip with
      | S k => pieces_from k s'
      | O =>
          match space_at s with
          | S k => EmptyString :: pieces_from k s'
          | O =>
              match pieces_from 0 s' with
              | [] => [String c EmptyString]
              | w :: ws => String c w :: ws
              end
          end
      end
  end.

Definition nonempty (s : string) : bool :=
  match s with
  | EmptyString => false
  | String _ _ => true
  end.

(** [s.split()] *)
Definition split (s : string) : list string := List.filter nonempty (pieces_from 0 s).

(** [load_cities], lines 75-79, on the lines that iterating over the file
    yields. *)
Definition load_cities (f : list string) : list string :=
  map strip
    (List.filter (fun line => nonempty (strip line) && negb (Str.startswith line "#")) f).

(** The body of the loop of [load_keywords], lines 91-94. *)
Definition add_group (groups : list (list string)) (line : string) : list (list string) :=
  let line := strip line in
  if nonempty line && negb (Str.startswith line "#")
  then groups ++ [split line]
  else groups.

(** [load_keywords], lines 82-95. *)
Definition load_keywords (f : list string) : list (list string) :=
  foldl add_group [] f.

End Loaders.

(** ** Summary table *)

Module Report.
Import Extractor Sink.

(** [len(s)]: the code points of [s], which are its bytes other than the
    continuation bytes [80]..[BF]. *)
Fixpoint len (s : string) : nat :=
  match s with
  | EmptyString => 0
  | String c s' => if Url.in_range 128 191 c then len s' else S (len s')
  end.

(** [cities.setdefault(r["city"], []).append(r)] on a dict, whose keys stay
    in the order of their insertion. *)
Fixpoint add (r : AdRecord) (cities : list (string * list AdRecord))
  : list (string * list AdRecord) :=
  match cities with
  | [] => [(city r, [r])]
  | (c, ads) :: rest =>
      if String.eqb c (city r) then (c, ads ++ [r]) :: rest
      else (c, ads) :: add r rest
  end.

(** The loop of lines 161-163. *)
Definition by_city (results : list AdRecord) : list (string * list AdRecord) :=
  foldl (fun cities r => add r cities) [] results.

(** A printed row: the city, [n], [m] and the positions that are joined
    into the last column (none of them prints as a dash). *)
Record Row := {
  row_city : string;
  row_n : nat;
  row_m : nat;
  row_positions : list Z;
}.

(** Lines 176-179 for one city. *)
Definition row (entry : string * list AdRecord) : Row :=
  let mine := List.filter is_mine entry.2 in
  {| row_city := entry.1;
     row_n := length entry.2;
     row_m := length mine;
     row_positions := map (fun a => ad_position (ad a)) mine |}.

(** What is printed: the width of the first column, the rows, and the two
    totals of the last line. *)
Record Table := {
  col_city : nat;
  rows : list Row;
  total_ads : nat;
  total_mine : nat;
}.

(** [print_report], lines 156-185; [None] when nothing is printed.  The
    totals are summed row after row as in lines 174-182. *)
Definition print_report (results : list AdRecord) : option Table :=
  match results with
  | [] => None
  | _ =>
      let cities := by_city results in
      let max_city := foldr Nat.max 0%nat (map (fun e => len e.1) cities) in
      let totals :=
        foldl (fun t e => ((t.1 + row_n (row e))%nat, (t.2 + row_m (row e))%nat))
              (0%nat, 0%nat) cities in
      Some {| col_city := Nat.max max_city 5;
              rows := map row cities;
              total_ads := totals.1;
              total_mine := totals.2 |}
  end.

End Report.

(** ** Signal handling *)

Module Signal.
Import Orchestrator.

(** [handle_signal], lines 443-450, with the exit status when it ends the
    process.  A Ctrl+C with the flag already set saves and exits with
    status 1; the first one only sets the flag
    ([Orchestrator.handle_signal]). *)
Definition handle_signal (st : RunState) : RunState * option Z :=
  if shutdown_requested st then (flush "" st, Some 1)
  else (Orchestrator.handle_signal st, None).

End Signal.

(** ** Further observations *)

Module MoreObservations.
Import Extractor Sink Orchestrator.

(** The characters of a value encoded by [quote_plus]. *)
Definition encoded_char (c : ascii) : bool :=
  Url.always_safe c || Str.has_char c "+%".

(** The records of one city, in their order. *)
Definition of_city (c : string) (results : list AdRecord) : list AdRecord :=
  List.filter (fun r => String.eqb (city r) c) results.

(** The distinct elements of a list in the order of their first occurrence. *)
Fixpoint first_seen (l : list string) : list string :=
  match l with
  | [] => []
  | x :: l' => x :: List.filter (fun y => negb (String.eqb x y)) (first_seen l')
  end.

(** [cities.get(c)] on the dict of the report. *)
Fixpoint entry_of (c : string) (cities : list (string * list AdRecord))
  : option (list AdRecord) :=
  match cities with
  | [] => None
  | (c', ads) :: rest => if String.eqb c' c then Some ads else entry_of c rest
  end.

(** [c in keys] *)
Definition mem (c : string) (keys : list string) : bool := existsb (String.eqb c) keys.

(** The calls made between the launch of the browser and its closing. *)
Definition in_loop (e : event) : bool :=
  match e with
  | Launch _ | CloseBrowser | PrintReport _ => false
  | _ => true
  end.

(** The calls that need no browser. *)
Definition offline (e : event) : bool :=
  match e with
  | SaveResults _ _ | PrintReport _ => true
  | _ => false
  end.

(** The cities left after the skip offset, lines 332-334. *)
Definition remaining (skip : Z) (cities : list string) : list string :=
  if (0 <? skip)%Z then drop (Z.to_nat skip) cities else cities.

(** The second byte that the lead byte [c] of a sequence of three or four
    bytes admits (Unicode, table 3-7). *)
Definition second_byte (c c2 : ascii) : bool :=
  let n := N_of_ascii c in
  Url.in_range (if (n =? 224)%N then 160 else if (n =? 240)%N then 144 else 128)
               (if (n =? 237)%N then 159 else if (n =? 244)%N then 143 else 191) c2.

(** Well-formed UTF-8: what the bytes of a Python [str] are. *)
Fixpoint valid_utf8 (s : string) : bool :=
  match s with
  | EmptyString => true
  | String c r1 =>
      if Url.in_range 0 127 c then valid_utf8 r1
      else if Url.in_range 194 223 c then
        match r1 with
        | String c2 r2 => Url.in_range 128 191 c2 && valid_utf8 r2
        | _ => false
        end
      else if Url.in_range 224 239 c then
        match r1 with
        | String c2 (String c3 r3) =>
            second_byte c c2 && Url.in_range 128 191 c3 && valid_utf8 r3
        | _ => false
        end
      else if Url.in_range 240 244 c then
        match r1 with
        | String c2 (String c3 (String c4 r4)) =>
            second_byte c c2 && Url.in_range 128 191 c3 && Url.in_range 128 191 c4 &&
            valid_utf8 r4
        | _ => false
        end
      else false
  end.



End MoreObservations.

(** ** Further concrete inputs *)

Module MoreScenarios.
Import Config Extractor Sink Orchestrator Scenarios.

Definition newline : string := String Url.lf EmptyString.

(** A [keywords.txt] with a comment, a blank line and two rules. *)
Definition keywords_file : list string :=
  [ "# my ads" +:+ newline;
    "ремонт  телефон" +:+ newline;
    newline;
    "   # indented comment" +:+ newline;
    "  iphone" +:+ newline ].

(** A [cities.txt] with a comment and a padded line. *)
Definition cities_file : list string :=
  [ "# cities" +:+ newline;
    "moskva" +:+ newline;
    "  sankt-peterburg  " +:+ newline;
    newline;
    "kazan" ].

(** One record of another city. *)
Definition kazan_record : AdRecord :=
  {| ad := {| ad_position := 1;
              ad_title := "Ремонт телефонов";
              ad_url := "https://www.avito.ru/kazan/uslugi/remont_3";
              ad_is_reklama := false;
              seller_name := "";
              seller_url := "" |};
     city := "kazan"; is_mine := true; _run_ts := "20240101_120000" |}.

(** Results in which the records of [moskva] surround one of [kazan]. *)
Definition mixed_results : list AdRecord :=
  match moskva_records with
  | first :: others => first :: kazan_record :: others
  | [] => [kazan_record]
  end.

(** The table printed for [mixed_results]. *)
Definition mixed_table : Report.Table :=
  {| Report.col_city := 6;
     Report.rows :=
       [ {| Report.row_city := "moskva"; Report.row_n := 2; Report.row_m := 1;
            Report.row_positions := [1] |};
         {| Report.row_city := "kazan"; Report.row_n := 1; Report.row_m := 1;
            Report.row_positions := [1] |} ];
     Report.total_ads := 3;
     Report.total_mine := 2 |}.

(** An output directory with the CSV of an earlier run. *)
Definition old_files : gmap string content :=
  {[ "results_20231231_090000.csv" := Csv fieldnames [] ]}.

End MoreScenarios.


(** * Properties *)

(** ** Facts about the string primitives *)

Module StrFacts.
Import Str.

Lemma startswith_app (p post : string) : startswith (p +:+ post) p = true.
Proof.
  induction p as [|c p IH]; simpl; [reflexivity|].
  rewrite Ascii.eqb_refl. exact IH.
Qed.

Lemma startswith_inv (p s : string) :
  startswith s p = true -> exists post, s = p +:+ post.
Proof.
  revert s. induction p as [|c p IH]; intros s Hs; simpl in *.
  - exists s. reflexivity.
  - destruct s as [|d s]; [discriminate|].
    destruct (Ascii.eqb_spec c d) as [->|]; [|discriminate].
    destruct (IH _ Hs) as [post ->]. exists post. reflexivity.
Qed.

Lemma str_in_app (pre needle post : string) :
  str_in needle (pre +:+ needle +:+ post) = true.
Proof.
  induction pre as [|c pre IH].
  - simpl. destruct (needle +:+ post) eqn:E; simpl; rewrite <- E;
      rewrite startswith_app; reflexivity.
  - change (String c pre +:+ needle +:+ post) with (String c (pre +:+ needle +:+ post)).
    simpl. rewrite IH. apply orb_true_r.
Qed.

Lemma str_in_inv (needle hay : string) :
  str_in needle hay = true -> exists pre post, hay = pre +:+ needle +:+ post.
Proof.
  induction hay as [|c hay IH]; simpl; intros Hin.
  - rewrite orb_false_r in Hin. apply startswith_inv in Hin as [post ->].
    exists "", post. reflexivity.
  - apply orb_true_iff in Hin as [Hp|Hr].
    + apply startswith_inv in Hp as [post ->]. exists "", post. reflexivity.
    + destruct (IH Hr) as (pre & post & ->). exists (String c pre), post. reflexivity.
Qed.

Lemma remove_char_absent (c : ascii) (s : string) :
  has_char c s = false -> remove_char c s = s.
Proof.
  induction s as [|d s IH]; simpl; [reflexivity|].
  intros Hc. apply orb_false_iff in Hc as [-> Hs]. rewrite IH; auto.
Qed.

Lemma split1_absent (c : ascii) (s : string) :
  has_char c s = false -> split1 c s = (s, None).
Proof.
  induction s as [|d s IH]; simpl; [reflexivity|].
  intros Hc. apply orb_false_iff in Hc as [-> Hs]. rewrite IH; auto.
Qed.

Lemma split1_found (c : ascii) (s rest : string) :
  has_char c s = false -> split1 c (s +:+ String c rest) = (s, Some rest).
Proof.
  induction s as [|d s IH]; simpl.
  - rewrite Ascii.eqb_refl. reflexivity.
  - intros Hc. apply orb_false_iff in Hc as [-> Hs]. rewrite IH; auto.
Qed.

Lemma has_char_app (c : ascii) (s t : string) :
  has_char c (s +:+ t) = has_char c s || has_char c t.
Proof.
  induction s as [|d s IH]; simpl; [reflexivity|].
  rewrite IH. apply orb_assoc.
Qed.

Lemma split_absent (c : ascii) (s : string) :
  has_char c s = false -> split c s = [s].
Proof.
  induction s as [|d s IH]; simpl; [reflexivity|].
  intros Hc. apply orb_false_iff in Hc as [-> Hs]. rewrite IH; auto.
Qed.

End StrFacts.

(** ** Keyword matcher *)

Module MatcherSpec.
Import Matcher.
Section WithRuntime.
Context `{Runtime}.

Lemma str_in_contains_ci (word title : string) :
  Str.str_in (lower word) (lower title) = true <-> contains_ci word title.
Proof.
  split.
  - apply StrFacts.str_in_inv.
  - intros (pre & post & ->). apply StrFacts.str_in_app.
Qed.

(** C3. [is_mine] answers true exactly when some OR-group of the rule has
    every one of its words contained, case-insensitively, as a substring of
    the title; it answers false exactly when no group has.  Being a function
    of the embedding it has a value for every title and rule and touches no
    state. *)
Theorem is_mine_iff_matches (title : string) (rule : list (list string)) :
  (is_mine title rule = true <-> matches_spec title rule) /\
  (is_mine title rule = false <-> ~ matches_spec title rule).
Proof.
  assert (Hiff : is_mine title rule = true <-> matches_spec title rule).
  { unfold is_mine, matches_spec. rewrite existsb_exists.
    split; intros (group & Hin & Hall); exists group; split; auto.
    - intros word Hw. apply str_in_contains_ci.
      rewrite forallb_forall in Hall. auto.
    - apply forallb_forall. intros word Hw. apply str_in_contains_ci. auto. }
  split; [exact Hiff|].
  rewrite <- Hiff. destruct (is_mine title rule); split; intros; congruence.
Qed.

(** With no OR-group at all nothing matches. *)
Lemma is_mine_no_rules (title : string) : is_mine title [] = false.
Proof. reflexivity. Qed.

End WithRuntime.
End MatcherSpec.

(** ** Configuration *)

Module ConfigSpec.
Import Config.

Lemma setdefault_lookup (k k' : string) (v : json) (cfg : gmap string json) :
  setdefault k v cfg !! k' =
  match cfg !! k' with
  | Some x => Some x
  | None => if String.eqb k k' then Some v else None
  end.
Proof.
  unfold setdefault. destruct (String.eqb_spec k k') as [->|Hne].
  - destruct (cfg !! k') eqn:E; rewrite ?E, ?lookup_insert_eq; reflexivity.
  - destruct (cfg !! k) eqn:E.
    + destruct (cfg !! k'); reflexivity.
    + rewrite lookup_insert_ne by exact Hne. destruct (cfg !! k'); reflexivity.
Qed.

Lemma fold_setdefault_lookup (ds : list (string * json)) (cfg : gmap string json) (k : string) :
  foldl (fun cfg kv => setdefault kv.1 kv.2 cfg) cfg ds !! k =
  match cfg !! k with
  | Some x => Some x
  | None => default_of ds k
  end.
Proof.
  revert cfg. induction ds as [|[k' v] ds IH]; intros cfg; simpl.
  - destruct (cfg !! k); reflexivity.
  - rewrite IH, setdefault_lookup.
    destruct (cfg !! k); [reflexivity|].
    destruct (String.eqb k' k); reflexivity.
Qed.

(** C5. [load_config] fills in the defaults key by key: a key of the
    supplied object keeps its value, whatever the value is ([false], [0] and
    [null] included), and a key that the object lacks gets its default.  With
    no file every key has its default. *)
Theorem load_config_merge (cfg : gmap string json) (k : string) :
  (forall v, cfg !! k = Some v -> load_config (Some cfg) !! k = Some v) /\
  (cfg !! k = None -> load_config (Some cfg) !! k = default_of defaults k) /\
  load_config None !! k = default_of defaults k.
Proof.
  unfold load_config. rewrite !fold_setdefault_lookup, lookup_empty.
  split; [|split; [|reflexivity]].
  - intros v ->. reflexivity.
  - intros ->. reflexivity.
Qed.

Lemma load_config_merge_witness :
  let cfg : gmap string json :=
    <["headless" := JBool false]> (<["max_retries" := JInt 0]> ∅) in
  load_config (Some cfg) !! "headless" = Some (JBool false) /\
  load_config (Some cfg) !! "max_retries" = Some (JInt 0) /\
  load_config (Some cfg) !! "min_delay" = Some (JInt 3).
Proof.
  intros cfg. split; [|split].
  - apply (proj1 (load_config_merge cfg "headless")). vm_compute. reflexivity.
  - apply (proj1 (load_config_merge cfg "max_retries")). vm_compute. reflexivity.
  - rewrite (proj1 (proj2 (load_config_merge cfg "min_delay"))); vm_compute; reflexivity.
Defined.

End ConfigSpec.

(** ** URL parsing *)

Module UrlSpec.
Import Str StrFacts Url.

Ltac free_facts H :=
  cbn [free_of path_stops value_stops unsafe String.append] in H;
  repeat (apply andb_true_iff in H as [?F H]);
  repeat match goal with
         | F : negb _ = true |- _ => apply negb_true_iff in F
         end.

Ltac use_facts :=
  repeat match goal with
         | F : has_char ?c ?s = false |- context [has_char ?c ?s] => rewrite F
         end.

Lemma remove_unsafe_free (s : string) : free_of unsafe s = true -> remove_unsafe s = s.
Proof.
  intros Hf. free_facts Hf. unfold remove_unsafe.
  rewrite (remove_char_absent tab), (remove_char_absent cr), (remove_char_absent lf); auto.
Qed.

Lemma free_of_app (cs s t : string) :
  free_of cs (s +:+ t) = free_of cs s && free_of cs t.
Proof.
  induction cs as [|c cs IH]; simpl; [reflexivity|].
  rewrite IH, has_char_app, negb_orb.
  destruct (has_char c s), (has_char c t), (free_of cs s), (free_of cs t); reflexivity.
Qed.

Lemma app_cons_str (x : ascii) (a b : string) : String x a +:+ b = String x (a +:+ b).
Proof. reflexivity. Qed.

Lemma app_assoc_str (a b c : string) : (a +:+ b) +:+ c = a +:+ (b +:+ c).
Proof.
  induction a as [|x a IH]; [reflexivity|].
  rewrite !app_cons_str, IH. reflexivity.
Qed.

Lemma app_nil_l_str (s : string) : "" +:+ s = s.
Proof. reflexivity. Qed.

Lemma app_nil_r_str (s : string) : s +:+ "" = s.
Proof.
  induction s as [|x s IH]; [reflexivity|].
  rewrite app_cons_str, IH. reflexivity.
Qed.

(** What [urlparse] finds in a URL made of an accepted prefix, a category
    path and the rest after an optional question mark. *)
Lemma urlparse_avito (prefix P : string) (Q : option string) :
  In prefix prefixes ->
  free_of path_stops P = true ->
  free_of ("#" +:+ unsafe) (default "" Q) = true ->
  let url := prefix +:+ P +:+ match Q with Some q => String "?" q | None => "" end in
  path (urlparse url) = "/all/" +:+ P /\ query (urlparse url) = default "" Q.
Proof.
  intros Hin HP HQ url.
  assert (Hunsafe : free_of unsafe (P +:+ match Q with Some q => String "?" q | None => "" end) = true).
  { rewrite free_of_app. free_facts HP. free_facts HQ.
    destruct Q as [q|]; cbn [free_of unsafe has_char default]; use_facts;
      cbn in *; use_facts; reflexivity. }
  assert (Hfrag : has_char "#" (P +:+ match Q with Some q => String "?" q | None => "" end) = false).
  { rewrite has_char_app. free_facts HP. free_facts HQ.
    destruct Q as [q|]; cbn in *; use_facts; reflexivity. }
  assert (Hsplit : split1 "?" (P +:+ match Q with Some q => String "?" q | None => "" end) = (P, Q)).
  { free_facts HP. destruct Q as [q|].
    - apply split1_found; auto.
    - rewrite app_nil_r_str. apply split1_absent; auto. }
  assert (Hsemi : has_char ";" P = false) by (free_facts HP; auto).
  apply remove_unsafe_free in Hunsafe.
  unfold remove_unsafe in Hunsafe.
  destruct Hin as [<-|[<-|[]]]; subst url; unfold urlparse, urlsplit;
    rewrite !app_cons_str, app_nil_l_str;
    simpl; rewrite Hunsafe, (split1_absent _ _ Hfrag);
    simpl; rewrite Hsplit; simpl; rewrite Hsemi; auto.
Qed.

Lemma startswith_prefix (prefix P tail : string) (parsed : SplitResult) :
  In prefix prefixes ->
  try_prefixes prefixes (prefix +:+ P +:+ tail) parsed =
  try_prefixes [prefix] (prefix +:+ P +:+ tail) parsed.
Proof.
  intros [<-|[<-|[]]].
  - unfold prefixes. cbn [try_prefixes]. rewrite startswith_app. reflexivity.
  - rewrite !app_cons_str. simpl. reflexivity.
Qed.

Lemma parse_qs_q (c : ascii) (v : string) :
  Str.has_char "&" (String c v) = false ->
  parse_qs ("q=" +:+ String c v) !! "q" = Some [unquote_plus (String c v)].
Proof.
  intros Hamp.
  assert (E : parse_qsl ("q=" +:+ String c v) = [("q", unquote_plus (String c v))]).
  { unfold parse_qsl. rewrite !app_cons_str, app_nil_l_str.
    rewrite split_absent by (simpl in *; exact Hamp). reflexivity. }
  unfold parse_qs. rewrite E. cbn [foldl fst snd].
  rewrite lookup_empty, lookup_insert_eq. reflexivity.
Qed.

(** A blank value is dropped: [q=] alone leaves no [q]. *)
Lemma parse_qs_blank : parse_qs "q=" !! "q" = None.
Proof. reflexivity. Qed.

(** C4, as the code has it.  A URL made of [https://www.avito.ru/all/] or
    of [http://www.avito.ru/all/], of a category path and, optionally, of
    [?q=] and a value is parsed into the category path and the query: [None]
    without [q] and for a blank value, otherwise [q=] and the value as
    [parse_qs] decodes it (escapes that are not UTF-8 become U+FFFD) and
    [urlencode] encodes it again.  The category path holds no [?], [#], [;],
    tab, CR or LF, the value no [&], [#], tab, CR or LF.  Every URL that
    starts with neither prefix makes [parse_category_path] raise
    [ValueError], and [main] then ends before anything else is done. *)
Theorem parse_category_path_spec :
  (forall prefix P,
     In prefix prefixes -> free_of path_stops P = true ->
     parse_category_path (prefix +:+ P) = inr (P, None)) /\
  (forall prefix P v,
     In prefix prefixes -> free_of path_stops P = true ->
     free_of value_stops v = true ->
     parse_category_path (prefix +:+ P +:+ "?q=" +:+ v) =
     inr (P, match v with
             | EmptyString => None
             | _ => Some ("q=" +:+ quote_plus (unquote_plus v))
             end)) /\
  (forall url,
     (forall prefix, In prefix prefixes -> Str.startswith url prefix = false) ->
     parse_category_path url = inl ValueError /\
     forall (R : Runtime) world skip debug cities keywords config_file st,
       Orchestrator.main world url skip debug cities keywords config_file st =
       Some (st, Orchestrator.Raised ValueError)).
Proof.
  split; [|split].
  - intros prefix P Hin HP.
    destruct (urlparse_avito prefix P None Hin HP eq_refl) as [Hpath Hquery].
    cbn [default] in *. unfold parse_category_path.
    assert (E : prefix +:+ P = prefix +:+ P +:+ "") by (rewrite app_nil_r_str; reflexivity).
    rewrite E. rewrite startswith_prefix by exact Hin.
    cbn [try_prefixes]. rewrite startswith_app, Hpath, Hquery.
    rewrite !app_cons_str, app_nil_l_str. reflexivity.
  - intros prefix P v Hin HP HV.
    assert (HV' : negb (has_char "&" v) && free_of ("#" +:+ unsafe) v = true) by exact HV.
    apply andb_true_iff in HV' as [Hamp HV']. apply negb_true_iff in Hamp.
    assert (HQ : free_of ("#" +:+ unsafe) (default "" (Some ("q=" +:+ v))) = true).
    { change (free_of ("#" +:+ unsafe) ("q=" +:+ v) = true).
      rewrite free_of_app, HV'. reflexivity. }
    destruct (urlparse_avito prefix P (Some ("q=" +:+ v)) Hin HP HQ) as [Hpath Hquery].
    cbn [default] in *. unfold parse_category_path.
    change (prefix +:+ P +:+ "?q=" +:+ v)
      with (prefix +:+ P +:+ String "?" ("q=" +:+ v)).
    rewrite startswith_prefix by exact Hin.
    cbn [try_prefixes]. rewrite startswith_app, Hpath, Hquery. unfold id.
    destruct v as [|c v].
    + change ("q=" +:+ "") with "q=". rewrite parse_qs_blank.
      rewrite !app_cons_str, app_nil_l_str. reflexivity.
    + rewrite parse_qs_q by exact Hamp.
      rewrite !app_cons_str, app_nil_l_str. reflexivity.
  - intros url Hno.
    assert (E : parse_category_path url = inl ValueError).
    { unfold parse_category_path, prefixes. cbn [try_prefixes].
      rewrite !Hno by (simpl; auto). reflexivity. }
    split; [exact E|]. intros. unfold Orchestrator.main. rewrite E. reflexivity.
Qed.

Lemma parse_category_path_spec_witness :
  parse_category_path "https://www.avito.ru/all/uslugi/remont" = inr ("uslugi/remont", None) /\
  parse_category_path "https://www.avito.ru/all/uslugi/remont?q=iphone" =
    inr ("uslugi/remont", Some "q=iphone") /\
  parse_category_path "http://www.avito.ru/all/uslugi/remont?q=%FF" =
    inr ("uslugi/remont", Some "q=%EF%BF%BD") /\
  parse_category_path "https://www.avito.ru/all/uslugi/remont?q=" = inr ("uslugi/remont", None) /\
  parse_category_path "ftp://www.avito.ru/all/uslugi/remont" = inl ValueError.
Proof.
  split; [|split; [|split; [|split]]].
  - apply (proj1 parse_category_path_spec "https://www.avito.ru/all/" "uslugi/remont").
    + simpl. auto.
    + vm_compute. reflexivity.
  - apply (proj1 (proj2 parse_category_path_spec)
             "https://www.avito.ru/all/" "uslugi/remont" "iphone").
    + simpl. auto.
    + vm_compute. reflexivity.
    + vm_compute. reflexivity.
  - apply (proj1 (proj2 parse_category_path_spec)
             "http://www.avito.ru/all/" "uslugi/remont" "%FF").
    + simpl. auto.
    + vm_compute. reflexivity.
    + vm_compute. reflexivity.
  - apply (proj1 (proj2 parse_category_path_spec)
             "https://www.avito.ru/all/" "uslugi/remont" "").
    + simpl. auto.
    + vm_compute. reflexivity.
    + vm_compute. reflexivity.
  - apply (proj2 (proj2 parse_category_path_spec)).
    intros prefix [<-|[<-|[]]]; vm_compute; reflexivity.
Defined.

(** C4 as stated fails: a URL whose prefix is not
    [https://www.avito.ru/all/] is accepted when it uses plain [http]. *)
Lemma http_prefix_is_accepted :
  Str.startswith "http://www.avito.ru/all/uslugi/remont" "https://www.avito.ru/all/" = false /\
  parse_category_path "http://www.avito.ru/all/uslugi/remont" = inr ("uslugi/remont", None).
Proof. split; vm_compute; reflexivity. Qed.

End UrlSpec.

(** ** Extractor *)

Module ExtractorSpec.
Import Extractor Orchestrator Observations.
Section WithRuntime.
Context `{Runtime}.

Lemma positions_imap (items : list Item) (n : nat) :
  map ad_position (imap (fun k => extract_item (n + k)) items) =
  map Z.of_nat (seq (S n) (length items)).
Proof.
  revert n. induction items as [|item items IH]; intros n; [reflexivity|].
  cbn [imap map length seq]. f_equal.
  - cbn. rewrite Nat.add_0_r. lia.
  - rewrite <- IH. f_equal. apply imap_ext. intros k x _. cbn.
    f_equal. lia.
Qed.

Lemma one_to_NoDup (n : nat) : NoDup (one_to n).
Proof.
  unfold one_to. apply NoDup_fmap_2; [intros a b; apply Nat2Z.inj|].
  apply NoDup_ListNoDup, List.seq_NoDup.
Qed.

(** C8. When [extract_ads] returns [N] records, their positions are
    [1, 2, ..., N] in this order, so without gap or repetition, and the
    record at rank [k + 1] is the one built from the [k]-th item of the
    catalog container in document order. *)
Theorem extract_ads_positions (page : Page) (city : string)
    (cfg : Config.ScanConfig) (calls : list event) (ads : list Ad) :
  extract_ads page city cfg = (calls, Some ads) ->
  map ad_position ads = one_to (length ads) /\
  NoDup (map ad_position ads) /\
  exists items,
    container page = Some items /\
    length items = length ads /\
    forall k item, items !! k = Some item ->
      ads !! k = Some (extract_item k item) /\
      ad_position (extract_item k item) = Z.of_nat k + 1.
Proof.
  unfold extract_ads, EXTRACT_ADS_JS.
  destruct (selector_found page); [|discriminate].
  destruct (container page) as [items|]; [|discriminate].
  intros [= _ <-].
  assert (Hpos : map ad_position (imap extract_item items) = one_to (length items)).
  { apply (positions_imap items 0). }
  rewrite length_imap. split; [exact Hpos|]. split.
  - rewrite Hpos. apply one_to_NoDup.
  - exists items. split; [reflexivity|]. split; [reflexivity|].
    intros k item Hk. rewrite list_lookup_imap, Hk. split; reflexivity.
Qed.

End WithRuntime.
End ExtractorSpec.

(** ** Scan orchestrator *)

Module OrchestratorSpec.
Import Config Extractor Sink Orchestrator Observations.

Lemma trace_emits (calls : list event) (st : RunState) :
  trace (emits calls st) = trace st ++ calls.
Proof.
  revert st. induction calls as [|e calls IH]; intros st; cbn.
  - rewrite app_nil_r. reflexivity.
  - unfold emits in IH. rewrite IH. cbn. rewrite <- app_assoc. reflexivity.
Qed.

Lemma emits_frame (calls : list event) (st : RunState) :
  collected_results (emits calls st) = collected_results st /\
  shutdown_requested (emits calls st) = shutdown_requested st /\
  consecutive_errors (emits calls st) = consecutive_errors st /\
  output (emits calls st) = output st.
Proof.
  revert st. induction calls as [|e calls IH]; intros st; cbn; [auto|].
  apply (IH (emit e st)).
Qed.

Lemma emits_collected (calls : list event) (st : RunState) :
  collected_results (emits calls st) = collected_results st.
Proof. apply emits_frame. Qed.

Lemma emits_flag (calls : list event) (st : RunState) :
  shutdown_requested (emits calls st) = shutdown_requested st.
Proof. apply emits_frame. Qed.

Lemma emits_errors (calls : list event) (st : RunState) :
  consecutive_errors (emits calls st) = consecutive_errors st.
Proof. apply emits_frame. Qed.

Lemma emits_output (calls : list event) (st : RunState) :
  output (emits calls st) = output st.
Proof. apply emits_frame. Qed.

Create Rewrite HintDb frame.
#[export] Hint Rewrite trace_emits emits_collected emits_flag emits_errors emits_output : frame.

Lemma navigations_app (a b : list event) :
  navigations (a ++ b) = (navigations a + navigations b)%nat.
Proof. unfold navigations. rewrite List.filter_app, length_app. reflexivity. Qed.

Lemma block_pauses_app (a b : list event) :
  block_pauses (a ++ b) = (block_pauses a + block_pauses b)%nat.
Proof. unfold block_pauses. rewrite List.filter_app, length_app. reflexivity. Qed.

Lemma extract_ads_calls `{Runtime} (page : Page) (city : string) (cfg : ScanConfig) :
  navigations (extract_ads page city cfg).1 = 0%nat /\
  block_pauses (extract_ads page city cfg).1 = 0%nat /\
  List.filter is_sleep (extract_ads page city cfg).1 = [] /\
  List.filter is_save (extract_ads page city cfg).1 = [].
Proof.
  unfold extract_ads. destruct (selector_found page); [|cbn; auto].
  destruct (EXTRACT_ADS_JS (container page)); cbn; auto.
Qed.

Lemma app_inv_head_str (a b c : string) : a +:+ b = a +:+ c -> b = c.
Proof.
  induction a as [|x a IH]; [auto|].
  rewrite !UrlSpec.app_cons_str. intros [= E]. auto.
Qed.

Lemma csv_json_distinct (ts : string) : csv_path ts <> json_path ts.
Proof.
  unfold csv_path, json_path. intros E.
  apply app_inv_head_str, app_inv_head_str in E. discriminate.
Qed.

(** After a flush the files hold the records flushed. *)
Lemma save_results_persists (rs : list AdRecord) (tag : string)
    (files : gmap string content) :
  persisted rs (save_results rs tag files).
Proof.
  destruct rs as [|r0 rs]; cbn; [exact I|]. split.
  - rewrite lookup_insert_ne by (apply not_eq_sym, csv_json_distinct).
    apply lookup_insert_eq.
  - apply lookup_insert_eq.
Qed.


Section Run.
Context `{Runtime}.
Variable world : World.
Variable cfg : ScanConfig.
Variable keywords : list (list string).

Lemma attempts_loop_summary (attempts : list Z) (i : Z) (city url : string) (st : RunState) :
  attempts_summary world cfg keywords attempts i city st
    (attempts_loop world cfg keywords attempts i city url st).1
    (attempts_loop world cfg keywords attempts i city url st).2.
Proof.
  revert st. induction attempts as [|a rest IH]; intros st.
  - cbn. apply Summary with (calls := []) (used := 0%nat); cbn; auto.
    + rewrite app_nil_r. reflexivity.
    + discriminate.
  - cbn [attempts_loop]. destruct (goto world i a) as [|page] eqn:Hnav.
    + (* the navigation raised: back off, next attempt *)
      set (st1 := emit (Sleep 10 20) (emit (Goto url (page_timeout cfg)) st)).
      destruct (IH st1) as [calls k Htr Hnavs Hk Hbl Hfl Hfail Hok].
      apply Summary with (calls := Goto url (page_timeout cfg) :: Sleep 10 20 :: calls) (used := S k).
      * rewrite Htr. cbn. rewrite <- !app_assoc. reflexivity.
      * change (Goto url (page_timeout cfg) :: Sleep 10 20 :: calls)
          with ([Goto url (page_timeout cfg); Sleep 10 20] ++ calls).
        rewrite navigations_app, Hnavs. reflexivity.
      * cbn. lia.
      * change (Goto url (page_timeout cfg) :: Sleep 10 20 :: calls)
          with ([Goto url (page_timeout cfg); Sleep 10 20] ++ calls).
        rewrite block_pauses_app, Hbl. cbn [take List.filter].
        unfold blocked at 2. rewrite Hnav. reflexivity.
      * rewrite Hfl. reflexivity.
      * intros Hs. destruct (Hfail Hs) as (-> & Hc & Ho & He & Hsv).
        cbn. rewrite Hc, Ho, He, Hsv. auto.
      * intros Hs. destruct (Hok Hs) as (j & a' & pg & cs & ads & before & -> & Hl & Hg & Hcap & Hex & Hc & Ho & He & Hcalls & Hsv).
        exists (S j), a', pg, cs, ads, (Goto url (page_timeout cfg) :: Sleep 10 20 :: before).
        repeat split; auto.
        -- rewrite Hcalls. reflexivity.
    + destruct (looks_like_captcha page) eqn:Hcap.
      * (* blocked: long pause, next attempt *)
        set (st1 := emit (Sleep 60 120) (emit (Goto url (page_timeout cfg)) st)).
        destruct (IH st1) as [calls k Htr Hnavs Hk Hbl Hfl Hfail Hok].
        apply Summary with (calls := Goto url (page_timeout cfg) :: Sleep 60 120 :: calls) (used := S k).
        -- rewrite Htr. cbn. rewrite <- !app_assoc. reflexivity.
        -- change (Goto url (page_timeout cfg) :: Sleep 60 120 :: calls)
             with ([Goto url (page_timeout cfg); Sleep 60 120] ++ calls).
           rewrite navigations_app, Hnavs. reflexivity.
        -- cbn. lia.
        -- change (Goto url (page_timeout cfg) :: Sleep 60 120 :: calls)
             with ([Goto url (page_timeout cfg); Sleep 60 120] ++ calls).
           rewrite block_pauses_app, Hbl. cbn [take List.filter].
           unfold blocked at 2. rewrite Hnav, Hcap. reflexivity.
        -- rewrite Hfl. reflexivity.
        -- intros Hs. destruct (Hfail Hs) as (-> & Hc & Ho & He & Hsv).
           cbn. rewrite Hc, Ho, He, Hsv. auto.
        -- intros Hs. destruct (Hok Hs) as (j & a' & pg & cs & ads & before & -> & Hl & Hg & Hcap' & Hex & Hc & Ho & He & Hcalls & Hsv).
           exists (S j), a', pg, cs, ads, (Goto url (page_timeout cfg) :: Sleep 60 120 :: before).
           repeat split; auto.
           ++ rewrite Hcalls. reflexivity.
      * destruct (extract_ads_calls page city cfg) as (Hen & Heb & _ & Hes).
        destruct (extract_ads page city cfg) as [ecalls [ads|]] eqn:Hex; cbn [fst] in *.
        -- (* extracted: stamp, extend, save *)
           apply Summary with (calls := Goto url (page_timeout cfg) :: ecalls ++
                       [SaveResults (collected_results st ++
                          map (stamp city (now world) keywords) ads) city]) (used := 1%nat).
           ++ cbn. autorewrite with frame. cbn. rewrite <- !app_assoc. reflexivity.
           ++ change (Goto url (page_timeout cfg) :: ecalls ++ ?x)
                with ([Goto url (page_timeout cfg)] ++ ecalls ++ x).
              rewrite !navigations_app, Hen. reflexivity.
           ++ cbn. lia.
           ++ change (Goto url (page_timeout cfg) :: ecalls ++ ?x)
                with ([Goto url (page_timeout cfg)] ++ ecalls ++ x).
              rewrite !block_pauses_app, Heb. cbn.
              unfold blocked. rewrite Hnav, Hcap. reflexivity.
           ++ cbn. autorewrite with frame. reflexivity.
           ++ discriminate.
           ++ intros _. exists 0%nat, a, page, ecalls, ads, (Goto url (page_timeout cfg) :: ecalls).
              cbn. autorewrite with frame. cbn. repeat split; auto.
        -- (* not ready: back off, next attempt *)
           set (st1 := emit (Sleep 10 20) (emits ecalls (emit (Goto url (page_timeout cfg)) st))).
           destruct (IH st1) as [calls k Htr Hnavs Hk Hbl Hfl Hfail Hok].
           destruct (emits_frame ecalls (emit (Goto url (page_timeout cfg)) st)) as (Ec & Ef & Ee & Eo).
           apply Summary with (calls := Goto url (page_timeout cfg) :: ecalls ++ Sleep 10 20 :: calls) (used := S k).
           ++ rewrite Htr. unfold st1. cbn. rewrite trace_emits. cbn.
              rewrite <- !app_assoc. reflexivity.
           ++ change (Goto url (page_timeout cfg) :: ecalls ++ Sleep 10 20 :: calls)
                with ([Goto url (page_timeout cfg)] ++ ecalls ++ [Sleep 10 20] ++ calls).
              rewrite !navigations_app, Hen, Hnavs. reflexivity.
           ++ cbn. lia.
           ++ change (Goto url (page_timeout cfg) :: ecalls ++ Sleep 10 20 :: calls)
                with ([Goto url (page_timeout cfg)] ++ ecalls ++ [Sleep 10 20] ++ calls).
              rewrite !block_pauses_app, Heb, Hbl. cbn [take List.filter].
              unfold blocked at 2. rewrite Hnav, Hcap. reflexivity.
           ++ rewrite Hfl. unfold st1. cbn. exact Ef.
           ++ intros Hs. destruct (Hfail Hs) as (-> & Hc & Ho & He & Hsv).
              unfold st1 in *. cbn in *. rewrite Hc, Ho, He, Ec, Eo, Ee.
              rewrite List.filter_app, Hes. cbn. rewrite Hsv. auto.
           ++ intros Hs. destruct (Hok Hs) as (j & a' & pg & cs & ads & before & -> & Hl & Hg & Hcap' & Hex' & Hc & Ho & He & Hcalls & Hsv).
              exists (S j), a', pg, cs, ads, (Goto url (page_timeout cfg) :: ecalls ++ Sleep 10 20 :: before).
              unfold st1 in *. cbn in *. rewrite Ec in Hc. rewrite Eo in Ho.
              repeat split; auto.
              ** rewrite Hcalls. cbn. rewrite <- !app_assoc. reflexivity.
              ** rewrite List.filter_app, Hes. cbn. exact Hsv.
Qed.


Lemma length_range (n : Z) : length (range n) = Z.to_nat n.
Proof. unfold range. rewrite length_map, length_seq. reflexivity. Qed.


(** A first Ctrl+C changes the flag and nothing else. *)
Lemma signal_frame (i : Z) (st : RunState) :
  let st0 := if sigint world i then handle_signal st else st in
  trace st0 = trace st /\
  collected_results st0 = collected_results st /\
  output st0 = output st /\
  consecutive_errors st0 = consecutive_errors st /\
  shutdown_requested st0 = shutdown_requested st || sigint world i.
Proof.
  destruct (sigint world i); cbn; repeat split; auto using orb_true_r, orb_false_r.
Qed.


Lemma city_body_unfold (category_path : string) (query : option string)
    (i : Z) (city : string) (st : RunState) :
  city_body world cfg keywords category_path query i city st =
  let tried := attempted world cfg keywords category_path query i city st in
  if tried.2 then delay cfg i tried.1
  else
    let st' := set_consecutive_errors (consecutive_errors tried.1 + 1) tried.1 in
    if (5 <=? consecutive_errors st')%Z then (st', Break) else delay cfg i st'.
Proof.
  unfold city_body, attempted.
  destruct (attempts_loop _ _ _ _ _ _ _ _) as [st1 ok]. reflexivity.
Qed.

Lemma delay_frame (i : Z) (st : RunState) :
  collected_results (delay cfg i st).1 = collected_results st /\
  output (delay cfg i st).1 = output st /\
  consecutive_errors (delay cfg i st).1 = consecutive_errors st /\
  shutdown_requested (delay cfg i st).1 = shutdown_requested st.
Proof.
  unfold delay. destruct (long_pause_every cfg =? 0)%Z; [cbn; auto|].
  destruct (i mod long_pause_every cfg =? 0)%Z; cbn; auto.
Qed.




Lemma cities_loop_has_targets (category_path : string) (query : option string)
    (targets : list (Z * string)) (st : RunState) :
  (cities_loop world cfg keywords category_path query targets st).2 <> NoTargets.
Proof.
  revert st. induction targets as [|[i city] rest IH]; intros st; cbn [cities_loop].
  - discriminate.
  - destruct (shutdown_requested st); [discriminate|].
    destruct (city_body _ _ _ _ _ _ _ _) as [st1 [| |e]]; cbn; try discriminate.
    apply IH.
Qed.


(** *** Invariants of a run *)

Section Invariant.
Variable Inv : RunState -> Prop.
Hypothesis Inv_emit : forall e st, Inv st -> Inv (emit e st).
Hypothesis Inv_signal : forall st, Inv st -> Inv (handle_signal st).
Hypothesis Inv_counter : forall n st, Inv st -> Inv (set_consecutive_errors n st).
Hypothesis Inv_save :
  forall city ads st,
    Inv st -> Inv (flush city (extend (map (stamp city (now world) keywords) ads) st)).

Lemma emits_inv (calls : list event) (st : RunState) : Inv st -> Inv (emits calls st).
Proof.
  revert st. induction calls as [|e calls IH]; intros st Hst; cbn; [exact Hst|].
  apply IH, Inv_emit, Hst.
Qed.

Lemma attempts_loop_inv (attempts : list Z) (i : Z) (city url : string) (st : RunState) :
  Inv st -> Inv (attempts_loop world cfg keywords attempts i city url st).1.
Proof.
  revert st. induction attempts as [|a rest IH]; intros st Hst; cbn [attempts_loop].
  - exact Hst.
  - destruct (goto world i a) as [|page].
    + apply IH. auto.
    + destruct (looks_like_captcha page).
      * apply IH. auto.
      * destruct (extract_ads page city cfg) as [ecalls [ads|]].
        -- cbn [fst]. apply Inv_counter, Inv_save, emits_inv. auto.
        -- apply IH, Inv_emit, emits_inv. auto.
Qed.

Lemma delay_inv (i : Z) (st : RunState) : Inv st -> Inv (delay cfg i st).1.
Proof.
  intros Hst. unfold delay. destruct (long_pause_every cfg =? 0)%Z; [exact Hst|].
  destruct (i mod long_pause_every cfg =? 0)%Z; cbn; auto.
Qed.

Lemma city_body_inv (category_path : string) (query : option string)
    (i : Z) (city : string) (st : RunState) :
  Inv st -> Inv (city_body world cfg keywords category_path query i city st).1.
Proof.
  intros Hst. rewrite city_body_unfold. cbn zeta.
  assert (Ht : Inv (attempted world cfg keywords category_path query i city st).1).
  { apply attempts_loop_inv. destruct (sigint world i); auto. }
  destruct (attempted world cfg keywords category_path query i city st).2.
  - apply delay_inv, Ht.
  - destruct (5 <=? _)%Z; cbn [fst]; [|apply delay_inv]; apply Inv_counter, Ht.
Qed.

Lemma cities_loop_inv (category_path : string) (query : option string)
    (targets : list (Z * string)) (st : RunState) :
  Inv st -> Inv (cities_loop world cfg keywords category_path query targets st).1.
Proof.
  revert st. induction targets as [|[i city] rest IH]; intros st Hst; cbn [cities_loop].
  - exact Hst.
  - destruct (shutdown_requested st); [exact Hst|].
    pose proof (city_body_inv category_path query i city st Hst) as Hb.
    destruct (city_body _ _ _ _ _ _ _ _) as [st1 [| |e]]; cbn [fst] in *; auto.
Qed.

Lemma extend_nothing (st : RunState) : extend [] st = st.
Proof. destruct st. unfold extend. cbn. rewrite app_nil_r. reflexivity. Qed.

Lemma run_inv (category_path : string) (cities : list string) (skip : Z)
    (query : option string) (st : RunState) :
  Inv st -> Inv (run world cfg keywords category_path cities skip query st).1.
Proof.
  intros Hst. unfold run.
  destruct (if (0 <? skip)%Z then drop (Z.to_nat skip) cities else cities) as [|c cs];
    [exact Hst|].
  set (cs' := c :: cs).
  assert (Hloop : forall st1 out,
            Inv st1 ->
            Inv (let st2 := emit CloseBrowser st1 in
                 match out with
                 | Raised e => (st2, Raised e)
                 | _ => (emit (PrintReport (collected_results (flush "" st2))) (flush "" st2), out)
                 end).1).
  { intros st1 out H1.
    assert (Hf : Inv (flush "" (emit CloseBrowser st1))).
    { rewrite <- (extend_nothing (emit CloseBrowser st1)).
      apply (Inv_save "" []). auto. }
    destruct out; cbn; auto. }
  destruct (warm_up world).
  - pose proof (cities_loop_inv category_path query (enumerate 1 cs')
        (emit (Sleep 3 5) (emit (Goto "https://www.avito.ru" (page_timeout cfg))
           (emit (Launch (headless cfg)) (set_consecutive_errors 0 st))))) as Hl.
    destruct (cities_loop world cfg keywords category_path query (enumerate 1 cs') _)
      as [st1 out].
    apply Hloop, Hl. auto.
  - apply (Hloop _ (Raised NavigationError)). auto.
Qed.

End Invariant.

(** The output files keep holding the whole of [collected_results], whatever
    way the run ends. *)
Lemma run_persisted (category_path : string) (cities : list string) (skip : Z)
    (query : option string) (st : RunState) :
  persisted (collected_results st) (output st) ->
  persisted (collected_results (run world cfg keywords category_path cities skip query st).1)
            (output (run world cfg keywords category_path cities skip query st).1).
Proof.
  apply (run_inv (fun st => persisted (collected_results st) (output st))); auto.
  intros city ads st0 _. cbn. apply save_results_persists.
Qed.

(** Records are only ever added at the end of [collected_results]. *)
Lemma run_keeps_records (category_path : string) (cities : list string) (skip : Z)
    (query : option string) (st : RunState) :
  exists added,
    collected_results (run world cfg keywords category_path cities skip query st).1 =
    collected_results st ++ added.
Proof.
  apply (run_inv (fun st' => exists added, collected_results st' = collected_results st ++ added)).
  - intros e st0 Hs. exact Hs.
  - intros st0 Hs. exact Hs.
  - intros n st0 Hs. exact Hs.
  - intros city ads st0 [added Hs]. cbn. rewrite Hs, <- app_assoc. eauto.
  - exists []. rewrite app_nil_r. reflexivity.
Qed.

(** Every record added by a run was classified by [is_mine] with the
    keyword rule of the run. *)
Lemma run_classifies (category_path : string) (cities : list string) (skip : Z)
    (query : option string) (st : RunState) :
  Forall (fun r => is_mine r = Matcher.is_mine (ad_title (ad r)) keywords) (collected_results st) ->
  Forall (fun r => is_mine r = Matcher.is_mine (ad_title (ad r)) keywords)
    (collected_results (run world cfg keywords category_path cities skip query st).1).
Proof.
  apply (run_inv (fun st => Forall (fun r => is_mine r = Matcher.is_mine (ad_title (ad r)) keywords)
                              (collected_results st))); auto.
  intros city ads st0 Hs. cbn. apply Forall_app. split; [exact Hs|].
  apply Forall_forall. intros r Hr. apply list_elem_of_fmap in Hr as (a & -> & _). reflexivity.
Qed.









End Run.

(** C10. With an empty keyword rule [is_mine] is false for every title, and
    a run started from a fresh process with that rule collects no record
    whose [is_mine] is true. *)
Theorem no_rules_no_match `{Runtime} (title : string) (world : World) (cfg : ScanConfig)
    (category_path : string) (cities : list string) (skip : Z)
    (query : option string) (files : gmap string content) :
  Matcher.is_mine title [] = false /\
  Forall (fun r => is_mine r = false)
    (collected_results (run world cfg [] category_path cities skip query (initial files)).1).
Proof.
  split; [reflexivity|].
  pose proof (run_classifies world cfg [] category_path cities skip query (initial files)) as Hc.
  cbn in Hc. apply Hc. constructor.
Qed.

End OrchestratorSpec.

(** ** The properties on concrete runs *)

Module RunExamples.
Import Config Extractor Sink Orchestrator Observations Scenarios OrchestratorSpec.

(** The examples of the specification for the matcher. *)
Example is_mine_repair :
  @Matcher.is_mine runtime "Ремонт телефонов недорого" keywords = true.
Proof. vm_compute. reflexivity. Qed.

Example is_mine_sale : @Matcher.is_mine runtime "Продажа телефонов" keywords = false.
Proof. vm_compute. reflexivity. Qed.

(** Three blocked navigations, three long pauses, and the target has failed. *)
Example blocked_three_times :
  attempts_loop (H := runtime) (always (NavLoaded block_page)) (settings 2 25) keywords
    (range 3) 1 "moskva" moskva_url (initial ∅) =
  ({| collected_results := []; shutdown_requested := false; consecutive_errors := 0;
      output := ∅;
      trace := [Goto moskva_url 30000; Sleep 60 120;
                Goto moskva_url 30000; Sleep 60 120;
                Goto moskva_url 30000; Sleep 60 120] |}, false).
Proof. vm_compute. reflexivity. Qed.


Lemma extract_ads_positions_witness :
  map ad_position (map ad moskva_records) = [1; 2].
Proof.
  destruct (ExtractorSpec.extract_ads_positions (H := runtime) listing "moskva" (settings 2 25)
              [WaitForSelector 10000; SmoothScroll] (map ad moskva_records)) as (Hpos & _).
  - vm_compute. reflexivity.
  - exact Hpos.
Defined.




(** Five failing targets in a row: the sixth is never opened. *)
Example five_failures_stop_the_run :
  let r := run (H := runtime) (always NavRaises) (settings 0 25) keywords "uslugi"
             ["a"; "b"; "c"; "d"; "e"; "f"; "g"] 0 None (initial ∅) in
  r.2 = EarlyAbort /\
  trace r.1 =
  [Launch true; Goto "https://www.avito.ru" 30000; Sleep 3 5;
   Goto "https://www.avito.ru/a/uslugi" 30000; Sleep 10 20; Sleep 3 12;
   Goto "https://www.avito.ru/b/uslugi" 30000; Sleep 10 20; Sleep 3 12;
   Goto "https://www.avito.ru/c/uslugi" 30000; Sleep 10 20; Sleep 3 12;
   Goto "https://www.avito.ru/d/uslugi" 30000; Sleep 10 20; Sleep 3 12;
   Goto "https://www.avito.ru/e/uslugi" 30000; Sleep 10 20;
   CloseBrowser; SaveResults [] ""; PrintReport []].
Proof. vm_compute. split; reflexivity. Qed.




End RunExamples.

(** * Further properties *)

(** ** Keyword matcher *)

Module MatcherLaws.
Import Matcher.

Lemma app_assoc_s (a b c : string) : (a +:+ b) +:+ c = a +:+ (b +:+ c).
Proof.
  induction a as [|x a IH]; [reflexivity|].
  change (String x a +:+ b) with (String x (a +:+ b)).
  change (String x (a +:+ b) +:+ c) with (String x ((a +:+ b) +:+ c)).
  change (String x a +:+ b +:+ c) with (String x (a +:+ b +:+ c)).
  rewrite IH. reflexivity.
Qed.

(** Containment is transitive. *)
Lemma str_in_trans (a b c : string) :
  Str.str_in a b = true -> Str.str_in b c = true -> Str.str_in a c = true.
Proof.
  intros Hab Hbc.
  apply StrFacts.str_in_inv in Hab as (p1 & q1 & ->).
  apply StrFacts.str_in_inv in Hbc as (p2 & q2 & ->).
  replace (p2 +:+ (p1 +:+ a +:+ q1) +:+ q2) with ((p2 +:+ p1) +:+ a +:+ (q1 +:+ q2)).
  - apply StrFacts.str_in_app.
  - rewrite !app_assoc_s. reflexivity.
Qed.

Section WithRuntime.
Context `{Runtime}.

(** X1. A title whose lower-cased text contains the lower-cased text of a
    matching title matches as well: text around a match never undoes it. *)
Theorem is_mine_monotone (title title' : string) (rule : list (list string)) :
  Str.str_in (lower title) (lower title') = true ->
  is_mine title rule = true ->
  is_mine title' rule = true.
Proof.
  unfold is_mine. intros Hsub Hm.
  apply existsb_exists in Hm as (group & Hin & Hall).
  apply existsb_exists. exists group. split; [exact Hin|].
  apply forallb_forall. intros word Hw.
  rewrite forallb_forall in Hall.
  apply (str_in_trans _ (lower title)); auto.
Qed.

(** X2. The groups of a rule are alternatives and the words of a group are
    requirements: a rule made of two lists of groups matches when one of
    them does, and a group made of two lists of words matches when both do. *)
Theorem is_mine_or_and (title : string) (rule1 rule2 : list (list string))
    (group1 group2 : list string) :
  is_mine title (rule1 ++ rule2) = is_mine title rule1 || is_mine title rule2 /\
  is_mine title (group1 :: rule1) = is_mine title [group1] || is_mine title rule1 /\
  is_mine title [group1 ++ group2] = is_mine title [group1] && is_mine title [group2].
Proof.
  unfold is_mine. split; [|split].
  - apply existsb_app.
  - cbn. rewrite orb_false_r. reflexivity.
  - cbn. rewrite !orb_false_r. apply forallb_app.
Qed.

End WithRuntime.
End MatcherLaws.

(** ** Configuration *)

Module ConfigLaws.
Import Config.

Lemma load_config_lookup (file : option (gmap string json)) (k : string) :
  load_config file !! k =
  match (match file with Some c => c | None => ∅ end) !! k with
  | Some x => Some x
  | None => default_of defaults k
  end.
Proof. unfold load_config. apply ConfigSpec.fold_setdefault_lookup. Qed.

(** X3. Loading is idempotent: a dictionary that went through
    [load_config] comes out of it unchanged. *)
Theorem load_config_idempotent (file : option (gmap string json)) :
  load_config (Some (load_config file)) = load_config file.
Proof.
  apply map_eq. intros k. rewrite (load_config_lookup (Some _)).
  destruct (load_config file !! k) eqn:E; [reflexivity|].
  rewrite load_config_lookup in E.
  destruct (_ !! k); [discriminate|]. exact E.
Qed.

(** X4. After [load_config] every setting that [run] and the browser helpers
    read is there, so [cfg[key]] cannot raise [KeyError]; and the keys of
    the result are those of the file together with those of the defaults,
    nothing is dropped. *)
Theorem load_config_keys (file : option (gmap string json)) (k : string) :
  (In k (map fst defaults) -> is_Some (load_config file !! k)) /\
  (is_Some (load_config file !! k) <->
   is_Some ((match file with Some c => c | None => ∅ end) !! k) \/ In k (map fst defaults)).
Proof.
  assert (Hd : In k (map fst defaults) <-> is_Some (default_of defaults k)).
  { induction defaults as [|[k' v] ds IH]; cbn.
    - split; [intros []|intros [x Hx]; discriminate].
    - destruct (String.eqb_spec k' k) as [->|Hne].
      + split; eauto.
      + rewrite <- IH. split; [intros [E|E]; [contradiction|exact E]|auto]. }
  rewrite load_config_lookup.
  destruct (_ !! k) as [x|]; split.
  - eauto.
  - split; eauto.
  - apply Hd.
  - rewrite Hd. split; [auto|]. intros [[x Hx]|Hk]; [discriminate|exact Hk].
Qed.

End ConfigLaws.

(** ** URL parsing *)

Module UrlLaws.
Import Str StrFacts Url UrlSpec MoreObservations.

Lemma unquote_to_bytes_quote_char (c : ascii) (s : string) :
  unquote_to_bytes (replace_char "+" " " (quote_plus (String c s))) =
  String c (unquote_to_bytes (replace_char "+" " " (quote_plus s))).
Proof. destruct c as [[] [] [] [] [] [] [] []]; reflexivity. Qed.

(** Unquoting to bytes undoes [quote_plus]. *)
Lemma unquote_to_bytes_quote_plus (s : string) :
  unquote_to_bytes (replace_char "+" " " (quote_plus s)) = s.
Proof.
  induction s as [|c s IH]; [reflexivity|].
  rewrite unquote_to_bytes_quote_char, IH. reflexivity.
Qed.

Lemma quote_plus_chars (s : string) : all_chars encoded_char (quote_plus s) = true.
Proof.
  induction s as [|c s IH]; [reflexivity|].
  assert (Hc : forall r, all_chars encoded_char r = true ->
                         all_chars encoded_char (quote_plus (String c EmptyString) +:+ r) = true).
  { destruct c as [[] [] [] [] [] [] [] []]; intros r Hr; cbn; exact Hr. }
  assert (E : quote_plus (String c s) = quote_plus (String c EmptyString) +:+ quote_plus s).
  { destruct c as [[] [] [] [] [] [] [] []]; reflexivity. }
  rewrite E. apply Hc, IH.
Qed.

Lemma all_chars_excludes (p : ascii -> bool) (x : ascii) (s : string) :
  all_chars p s = true -> p x = false -> has_char x s = false.
Proof.
  intros Hall Hx. induction s as [|c s IH]; [reflexivity|].
  cbn in *. apply andb_true_iff in Hall as [Hc Hs].
  rewrite IH by exact Hs. destruct (Ascii.eqb_spec x c) as [->|_]; [congruence|reflexivity].
Qed.

Lemma quote_plus_nonempty (c : ascii) (v : string) :
  exists c' v', quote_plus (String c v) = String c' v'.
Proof.
  cbn. destruct (always_safe c); [eauto|]. destruct (Ascii.eqb c " "); eauto.
Qed.

Lemma encoded_char_ascii (c : ascii) :
  encoded_char c = true -> in_range 0 127 (if Ascii.eqb "+" c then " "%char else c) = true.
Proof. destruct c as [[] [] [] [] [] [] [] []]; vm_compute; auto. Qed.

Lemma quote_plus_ascii (s : string) :
  all_chars (in_range 0 127) (replace_char "+" " " (quote_plus s)) = true.
Proof.
  pose proof (quote_plus_chars s) as Hs.
  induction (quote_plus s) as [|c x IH]; [reflexivity|].
  cbn [all_chars replace_char] in *. apply andb_true_iff in Hs as [Hc Hx].
  rewrite (encoded_char_ascii c Hc). apply IH, Hx.
Qed.

Lemma unquote_to_bytes_plain (s : string) :
  has_char "%" s = false -> unquote_to_bytes s = s.
Proof.
  induction s as [|c s IH]; [reflexivity|]. cbn [has_char unquote_to_bytes].
  rewrite (Ascii.eqb_sym c "%"). destruct (Ascii.eqb "%" c); [discriminate|].
  cbn [orb]. intros Hs. rewrite IH by exact Hs. reflexivity.
Qed.

Lemma decode_replace_ascii (s : string) :
  all_chars (in_range 0 127) s = true -> decode_replace s = s.
Proof.
  induction s as [|c s IH]; [reflexivity|]. cbn [all_chars decode_replace].
  intros Hs. apply andb_true_iff in Hs as [Hc Hs]. rewrite Hc, IH by exact Hs. reflexivity.
Qed.

Lemma unquote_runs_ascii (run s : string) :
  all_chars (in_range 0 127) s = true ->
  unquote_runs run s = decode_replace (unquote_to_bytes (run +:+ s)).
Proof.
  revert run. induction s as [|c s IH]; intros run Hs; cbn [unquote_runs].
  - rewrite app_nil_r_str. reflexivity.
  - cbn [all_chars] in Hs. apply andb_true_iff in Hs as [Hc Hs].
    rewrite Hc, IH by exact Hs. rewrite app_assoc_str. reflexivity.
Qed.

(** On ASCII text [unquote] is the decoding of the unquoted bytes, with or
    without the shortcut for a text that holds no [%]. *)
Lemma unquote_ascii (s : string) :
  all_chars (in_range 0 127) s = true -> unquote s = decode_replace (unquote_to_bytes s).
Proof.
  intros Hs. unfold unquote. destruct (has_char "%" s) eqn:E.
  - rewrite unquote_runs_ascii by exact Hs. reflexivity.
  - rewrite unquote_to_bytes_plain by exact E.
    rewrite decode_replace_ascii by exact Hs. reflexivity.
Qed.

Ltac bytes :=
  unfold second_byte, second_of_three, second_of_four, is_continuation, in_range in *;
  repeat match goal with
         | H : _ && _ = true |- _ => apply andb_true_iff in H as [? ?]
         | H : (_ <=? _)%N = true |- _ => apply N.leb_le in H
         | H : (_ <=? _)%N = false |- _ => apply N.leb_gt in H
         | H : context [(?a =? ?b)%N] |- _ => destruct (N.eqb_spec a b)
         | |- context [(?a =? ?b)%N] => destruct (N.eqb_spec a b)
         | |- context [(?a <=? ?b)%N] => destruct (N.leb_spec a b)
         end;
  cbn in *; try reflexivity; try discriminate; try lia.

Lemma second_byte_of_three (c c2 : ascii) :
  in_range 224 239 c = true -> second_byte c c2 = true -> second_of_three c c2 = true.
Proof. intros Hc H2. bytes. Qed.

Lemma second_byte_of_four (c c2 : ascii) :
  in_range 240 244 c = true -> second_byte c c2 = true -> second_of_four c c2 = true.
Proof. intros Hc H2. bytes. Qed.

(** Decoding keeps well-formed UTF-8 as it is. *)
Lemma decode_replace_valid (s : string) : valid_utf8 s = true -> decode_replace s = s.
Proof.
  remember (String.length s) as n eqn:En.
  assert (Hn : (String.length s <= n)%nat) by lia. clear En.
  revert s Hn. induction n as [|n IH]; intros s Hn Hv.
  - destruct s; [reflexivity|cbn in Hn; lia].
  - destruct s as [|c r1]; [reflexivity|].
    cbn [valid_utf8 decode_replace String.length] in *.
    destruct (in_range 0 127 c).
    { rewrite IH by (try exact Hv; lia). reflexivity. }
    destruct (in_range 194 223 c).
    { destruct r1 as [|c2 r2]; [discriminate|]. cbn [String.length] in Hn.
      apply andb_true_iff in Hv as [H2 Hv]. unfold is_continuation. rewrite H2.
      rewrite IH by (try exact Hv; lia). reflexivity. }
    destruct (in_range 224 239 c) eqn:E3.
    { destruct r1 as [|c2 [|c3 r3]]; try discriminate. cbn [String.length] in Hn.
      apply andb_true_iff in Hv as [Hv Hr]. apply andb_true_iff in Hv as [H2 H3].
      rewrite (second_byte_of_three c c2 E3 H2). unfold is_continuation. rewrite H3.
      rewrite IH by (try exact Hr; lia). reflexivity. }
    destruct (in_range 240 244 c) eqn:E4; [|discriminate].
    destruct r1 as [|c2 [|c3 [|c4 r4]]]; try discriminate. cbn [String.length] in Hn.
    apply andb_true_iff in Hv as [Hv Hr]. apply andb_true_iff in Hv as [Hv H4].
    apply andb_true_iff in Hv as [H2 H3].
    rewrite (second_byte_of_four c c2 E4 H2). unfold is_continuation. rewrite H3, H4.
    rewrite IH by (try exact Hr; lia). reflexivity.
Qed.

(** Decoding undoes encoding on well-formed UTF-8. *)
Lemma unquote_plus_quote_plus (s : string) :
  valid_utf8 s = true -> unquote_plus (quote_plus s) = s.
Proof.
  intros Hs. unfold unquote_plus.
  rewrite unquote_ascii by apply quote_plus_ascii.
  rewrite unquote_to_bytes_quote_plus. apply decode_replace_valid, Hs.
Qed.

(** X5. Parsing and building are inverse on what parsing returns: the URL
    that line 357 builds for the pseudo-city [all] from a category path and
    a query [q=<encoded value>], the value being any text that is not empty,
    parses back into this path and this query; built with no query, it
    parses back into the path and no query. *)
Theorem parse_target_url (P v : string) :
  free_of path_stops P = true ->
  valid_utf8 v = true ->
  v <> "" ->
  parse_category_path (Orchestrator.target_url "all" P (Some (urlencode_q v))) =
    inr (P, Some (urlencode_q v)) /\
  parse_category_path (Orchestrator.target_url "all" P None) = inr (P, None).
Proof.
  intros HP Hv Hne. destruct v as [|c v]; [congruence|].
  assert (Hin : In "https://www.avito.ru/all/" prefixes) by (left; reflexivity).
  split.
  - destruct (quote_plus_nonempty c v) as (c' & v' & Ew).
    pose proof (quote_plus_chars (String c v)) as Hchars. rewrite Ew in Hchars.
    assert (Hamp : has_char "&" (String c' v') = false)
      by (apply (all_chars_excludes _ _ _ Hchars); reflexivity).
    assert (HQ : free_of ("#" +:+ unsafe) (default "" (Some ("q=" +:+ String c' v'))) = true).
    { change (free_of ("#" +:+ unsafe) ("q=" +:+ String c' v') = true).
      rewrite free_of_app.
      change (free_of ("#" +:+ unsafe) (String c' v'))
        with (negb (has_char "#" (String c' v')) &&
              (negb (has_char tab (String c' v')) &&
               (negb (has_char cr (String c' v')) &&
                (negb (has_char lf (String c' v')) && true)))).
      rewrite !(all_chars_excludes _ _ _ Hchars) by reflexivity. reflexivity. }
    destruct (urlparse_avito _ P (Some ("q=" +:+ String c' v')) Hin HP HQ) as [Hpath Hquery].
    cbn [default] in Hpath, Hquery. unfold id in Hquery.
    assert (Eurl : Orchestrator.target_url "all" P (Some (urlencode_q (String c v))) =
                   "https://www.avito.ru/all/" +:+ P +:+ String "?" ("q=" +:+ String c' v')).
    { unfold Orchestrator.target_url, urlencode_q. rewrite Ew. reflexivity. }
    rewrite Eurl. unfold parse_category_path.
    rewrite startswith_prefix by exact Hin.
    cbn [try_prefixes]. rewrite startswith_app, Hpath, Hquery.
    rewrite parse_qs_q by exact Hamp.
    rewrite <- Ew, unquote_plus_quote_plus by exact Hv.
    rewrite !app_cons_str, app_nil_l_str. reflexivity.
  - destruct (urlparse_avito _ P None Hin HP eq_refl) as [Hpath Hquery].
    cbn [default] in Hpath, Hquery.
    assert (Eurl : Orchestrator.target_url "all" P None =
                   "https://www.avito.ru/all/" +:+ P +:+ "") by reflexivity.
    rewrite Eurl. unfold parse_category_path.
    rewrite startswith_prefix by exact Hin.
    cbn [try_prefixes]. rewrite startswith_app, Hpath, Hquery.
    rewrite !app_cons_str, app_nil_l_str. reflexivity.
Qed.

(** X6. Whatever URL is accepted, a query that [parse_category_path] returns
    is [q=] followed only by letters, digits and the characters [_.-~+%]:
    it holds no [&], [#], [?] or blank that would change the URL it is
    appended to. *)
Theorem parsed_query_is_encoded (url path : string) (q : string) :
  parse_category_path url = inr (path, Some q) ->
  exists v, q = "q=" +:+ v /\ all_chars encoded_char v = true.
Proof.
  unfold parse_category_path. generalize (urlparse url) as parsed. intros parsed.
  induction prefixes as [|prefix ps IH]; cbn [try_prefixes]; [discriminate|].
  destruct (startswith url prefix); [|exact IH].
  destruct (parse_qs (query parsed) !! "q"); intros [= _ <-].
  eexists. split; [reflexivity|apply quote_plus_chars].
Qed.

End UrlLaws.

(** ** Extractor *)

Module ExtractorLaws.
Import Config Extractor Orchestrator.

Lemma has_char_before (c : ascii) (s : string) : Str.has_char c (Str.before c s) = false.
Proof.
  unfold Str.before. induction s as [|d s IH]; [reflexivity|].
  cbn. destruct (Ascii.eqb_spec c d) as [->|Hne]; [reflexivity|].
  destruct (Str.split1 c s) as [h t]. cbn in *.
  rewrite IH. destruct (Ascii.eqb_spec c d); [contradiction|reflexivity].
Qed.

Section WithRuntime.
Context `{Runtime}.

(** X7. The links of an extracted record never carry a query string: there
    is no [?] in [ad_url] and none in [seller_url], whatever the item. *)
Theorem extracted_links_have_no_query (index : nat) (item : Item) :
  Str.has_char "?" (ad_url (extract_item index item)) = false /\
  Str.has_char "?" (seller_url (extract_item index item)) = false.
Proof.
  split; cbn.
  - destruct (titleLink item); [apply has_char_before|reflexivity].
  - unfold seller. destruct (find _ _); cbn; [apply has_char_before|reflexivity].
Qed.

(** X8. [extract_ads] first waits for the catalog.  It returns no records
    exactly when the wait times out or the page has no catalog at
    evaluation, and exactly then it saves the page for the city as debug
    HTML; when it returns records it saved nothing. *)
Theorem extract_ads_diagnostics (page : Page) (city : string) (cfg : ScanConfig) :
  head (extract_ads page city cfg).1 = Some (WaitForSelector (selector_timeout cfg)) /\
  ((extract_ads page city cfg).2 = None <->
   selector_found page = false \/ container page = None) /\
  ((extract_ads page city cfg).2 = None <->
   In (DebugHtml city) (extract_ads page city cfg).1).
Proof.
  unfold extract_ads, EXTRACT_ADS_JS.
  destruct (selector_found page), (container page) as [items|]; cbn;
    (split; [reflexivity|split]); split; intros Hx; auto;
    try discriminate; try (destruct Hx as [Hx|Hx]; discriminate).
  repeat (destruct Hx as [Hx|Hx]; [discriminate|]). destruct Hx.
Qed.

End WithRuntime.
End ExtractorLaws.

(** ** Persistence sink *)

Module SinkLaws.
Import Extractor Sink.

(** X9. A flush rewrites the files in full: after two flushes of the same
    run the files are what the second flush alone would have written, no row
    of the first one survives. *)
Theorem save_results_overwrites (rs1 rs2 : list AdRecord) (tag1 tag2 : string)
    (files : gmap string content) :
  _run_ts <$> head rs1 = _run_ts <$> head rs2 ->
  save_results rs2 tag2 (save_results rs1 tag1 files) = save_results rs2 tag2 files.
Proof.
  destruct rs1 as [|r1 rs1], rs2 as [|r2 rs2]; cbn; try discriminate; auto.
  intros [= ->].
  rewrite (insert_insert_ne _ (csv_path (_run_ts r2)) (json_path (_run_ts r2)))
    by apply OrchestratorSpec.csv_json_distinct.
  rewrite !insert_insert_eq. reflexivity.
Qed.

(** X10. The CSV row and the JSON object of a record hold the same data:
    the keys of the object are the columns of the CSV, the internal
    [_run_ts] is not among them, and the row is the object read in the order
    of the columns. *)
Theorem csv_and_json_agree (r : AdRecord) :
  (forall k, In k (map fst (clean r)) <-> In k fieldnames) /\
  get "_run_ts" (clean r) = None /\
  csv_row r = map (fun k => default (CStr "") (get k (clean r))) fieldnames.
Proof.
  split; [|split; reflexivity].
  intros k. cbn. intuition.
Qed.

End SinkLaws.

(** ** Summary table *)

Module ReportSpec.
Import Extractor Sink Report MoreObservations.

Lemma by_city_snoc (l : list AdRecord) (r : AdRecord) :
  by_city (l ++ [r]) = add r (by_city l).
Proof. unfold by_city. rewrite foldl_app. reflexivity. Qed.

Lemma entry_add (c : string) (r : AdRecord) (cities : list (string * list AdRecord)) :
  entry_of c (add r cities) =
  if String.eqb (city r) c then Some (default [] (entry_of c cities) ++ [r])
  else entry_of c cities.
Proof.
  induction cities as [|[c' ads] rest IH]; cbn.
  - destruct (String.eqb (city r) c); reflexivity.
  - destruct (String.eqb_spec c' (city r)) as [->|Hne]; cbn.
    + destruct (String.eqb (city r) c); reflexivity.
    + rewrite IH. destruct (String.eqb_spec c' c) as [->|Hne'].
      * destruct (String.eqb_spec (city r) c) as [E|_]; [congruence|reflexivity].
      * reflexivity.
Qed.

Lemma of_city_snoc (c : string) (l : list AdRecord) (r : AdRecord) :
  of_city c (l ++ [r]) = of_city c l ++ (if String.eqb (city r) c then [r] else []).
Proof. unfold of_city. rewrite List.filter_app. reflexivity. Qed.

(** The entry of a city holds its records, and there is an entry exactly
    for the cities that have records. *)
Lemma entry_by_city (c : string) (l : list AdRecord) :
  entry_of c (by_city l) =
  match of_city c l with
  | [] => None
  | ads => Some ads
  end.
Proof.
  induction l as [|r l IH] using rev_ind; [reflexivity|].
  rewrite by_city_snoc, entry_add, of_city_snoc, IH.
  destruct (String.eqb (city r) c).
  - destruct (of_city c l); reflexivity.
  - rewrite app_nil_r. reflexivity.
Qed.

Lemma keys_add (r : AdRecord) (cities : list (string * list AdRecord)) :
  map fst (add r cities) =
  if mem (city r) (map fst cities) then map fst cities else map fst cities ++ [city r].
Proof.
  unfold mem. induction cities as [|[c' ads] rest IH]; cbn; [reflexivity|].
  rewrite (String.eqb_sym (city r) c').
  destruct (String.eqb c' (city r)); cbn; [reflexivity|].
  rewrite IH. destruct (existsb _ _); reflexivity.
Qed.

Lemma mem_app (c : string) (a b : list string) : mem c (a ++ b) = mem c a || mem c b.
Proof. apply existsb_app. Qed.

Lemma filter_filter_mem (c : string) (keys l : list string) :
  mem c keys = true ->
  List.filter (fun y => negb (mem y keys)) (List.filter (fun y => negb (String.eqb c y)) l) =
  List.filter (fun y => negb (mem y keys)) l.
Proof.
  intros Hc. induction l as [|y l IH]; [reflexivity|]. cbn.
  destruct (String.eqb_spec c y) as [<-|Hne]; cbn.
  - rewrite Hc. cbn. exact IH.
  - destruct (mem y keys); cbn; rewrite IH; reflexivity.
Qed.

Lemma filter_mem_snoc (c : string) (keys l : list string) :
  List.filter (fun y => negb (mem y (keys ++ [c]))) l =
  List.filter (fun y => negb (mem y keys)) (List.filter (fun y => negb (String.eqb c y)) l).
Proof.
  induction l as [|y l IH]; [reflexivity|]. cbn.
  rewrite mem_app. cbn. rewrite orb_false_r, (String.eqb_sym y c).
  destruct (String.eqb c y); cbn.
  - rewrite orb_true_r. cbn. exact IH.
  - rewrite orb_false_r. destruct (mem y keys); cbn; rewrite IH; reflexivity.
Qed.

Lemma keys_foldl (l : list AdRecord) (cities : list (string * list AdRecord)) :
  map fst (foldl (fun cities r => add r cities) cities l) =
  map fst cities ++
  List.filter (fun y => negb (mem y (map fst cities))) (first_seen (map city l)).
Proof.
  revert cities. induction l as [|r l IH]; intros cities; cbn [foldl map first_seen].
  - cbn. rewrite app_nil_r. reflexivity.
  - rewrite IH, keys_add. cbn [List.filter].
    destruct (mem (city r) (map fst cities)) eqn:Hm; cbn [negb].
    + rewrite filter_filter_mem by exact Hm. reflexivity.
    + rewrite filter_mem_snoc, <- app_assoc. reflexivity.
Qed.

Lemma first_seen_In (x : string) (l : list string) : In x (first_seen l) <-> In x l.
Proof.
  induction l as [|y l IH]; cbn; [reflexivity|].
  rewrite filter_In, IH. destruct (String.eqb_spec y x) as [->|Hne]; cbn.
  - split; auto.
  - split; [intros [E|[Hin _]]; auto|intros [E|Hin]; auto].
Qed.

Lemma first_seen_NoDup (l : list string) : List.NoDup (first_seen l).
Proof.
  induction l as [|y l IH]; cbn; constructor.
  - rewrite filter_In. intros [_ Hy]. rewrite String.eqb_refl in Hy. discriminate.
  - apply List.NoDup_filter, IH.
Qed.

Lemma entry_of_In (c : string) (ads : list AdRecord) (cities : list (string * list AdRecord)) :
  List.NoDup (map fst cities) -> In (c, ads) cities -> entry_of c cities = Some ads.
Proof.
  induction cities as [|[c' ads'] rest IH]; cbn; [intros _ []|].
  intros Hnd [E|Hin].
  - injection E as -> ->. rewrite String.eqb_refl. reflexivity.
  - inversion Hnd as [|? ? Hnot Hnd']; subst.
    destruct (String.eqb_spec c' c) as [->|_].
    + exfalso. apply Hnot. apply in_map_iff. exists (c, ads). auto.
    + auto.
Qed.

Lemma keys_by_city (l : list AdRecord) : map fst (by_city l) = first_seen (map city l).
Proof.
  unfold by_city. rewrite keys_foldl. cbn.
  induction (first_seen (map city l)) as [|y k IH]; cbn; congruence.
Qed.

Lemma totals_foldl (cities : list (string * list AdRecord)) (a b : nat) :
  foldl (fun t e => ((t.1 + row_n (row e))%nat, (t.2 + row_m (row e))%nat)) (a, b) cities =
  ((a + list_sum (map (fun e => row_n (row e)) cities))%nat,
   (b + list_sum (map (fun e => row_m (row e)) cities))%nat).
Proof.
  revert a b. induction cities as [|e rest IH]; intros a b.
  - cbn. rewrite !Nat.add_0_r. reflexivity.
  - cbn [foldl map]. rewrite IH. unfold list_sum. cbn [foldr fold_right fst snd].
    f_equal; lia.
Qed.

Lemma list_sum_cons (x : nat) (l : list nat) : list_sum (x :: l) = (x + list_sum l)%nat.
Proof. reflexivity. Qed.

Lemma sums_add (r : AdRecord) (cities : list (string * list AdRecord)) :
  list_sum (map (fun e => row_n (row e)) (add r cities)) =
    S (list_sum (map (fun e => row_n (row e)) cities)) /\
  list_sum (map (fun e => row_m (row e)) (add r cities)) =
    (list_sum (map (fun e => row_m (row e)) cities) + length (List.filter is_mine [r]))%nat.
Proof.
  induction cities as [|[c' ads] rest [IHn IHm]].
  - cbn. split; [reflexivity|]. destruct (is_mine r); reflexivity.
  - cbn [add]. destruct (String.eqb c' (city r)).
    + rewrite !map_cons, !list_sum_cons. unfold row at 1 3 5 7. cbn [row_n row_m fst snd].
      rewrite length_app, List.filter_app, length_app. cbn [length]. split; lia.
    + rewrite !map_cons, !list_sum_cons, IHn, IHm. split; lia.
Qed.

Lemma sums_by_city (l : list AdRecord) :
  list_sum (map (fun e => row_n (row e)) (by_city l)) = length l /\
  list_sum (map (fun e => row_m (row e)) (by_city l)) = length (List.filter is_mine l).
Proof.
  induction l as [|r l [IHn IHm]] using rev_ind; [split; reflexivity|].
  rewrite by_city_snoc. destruct (sums_add r (by_city l)) as [-> ->].
  rewrite IHn, IHm, List.filter_app, !length_app. cbn. split; lia.
Qed.

(** X11. The totals of the last line, which the loop adds up row after row,
    are the number of records and the number of records that are mine; the
    report prints nothing exactly when there is no record. *)
Theorem report_totals (results : list AdRecord) :
  (print_report results = None <-> results = []) /\
  forall t, print_report results = Some t ->
    total_ads t = length results /\
    total_mine t = length (List.filter is_mine results) /\
    total_ads t = list_sum (map row_n (rows t)) /\
    total_mine t = list_sum (map row_m (rows t)).
Proof.
  split.
  - destruct results; cbn; split; intros; congruence.
  - intros t Ht. destruct results as [|r0 rs]; [discriminate|].
    set (l := r0 :: rs) in *. unfold print_report in Ht. fold l in Ht.
    injection Ht as <-. cbn [total_ads total_mine rows].
    rewrite totals_foldl, !map_map. cbn [fst snd]. rewrite !Nat.add_0_l.
    destruct (sums_by_city l) as [-> ->]. auto.
Qed.

(** X12. There is one row per city that has records, and none for any
    other city.  The row of a city counts the records of this city, counts
    those that are mine, and lists the positions of those, in the order of
    the results. *)
Theorem report_rows (results : list AdRecord) (t : Table) :
  print_report results = Some t ->
  List.NoDup (map row_city (rows t)) /\
  (forall c, In c (map row_city (rows t)) <-> In c (map city results)) /\
  forall rw, In rw (rows t) ->
    row_n rw = length (of_city (row_city rw) results) /\
    row_m rw = length (List.filter is_mine (of_city (row_city rw) results)) /\
    row_positions rw =
      map (fun a => ad_position (ad a)) (List.filter is_mine (of_city (row_city rw) results)).
Proof.
  intros Ht. destruct results as [|r0 rs]; [discriminate|].
  set (l := r0 :: rs) in *. unfold print_report in Ht. fold l in Ht.
  injection Ht as <-. cbn [rows].
  assert (Ek : map row_city (map row (by_city l)) = first_seen (map city l)).
  { rewrite map_map. exact (keys_by_city l). }
  split; [|split].
  - rewrite Ek. apply first_seen_NoDup.
  - intros c. rewrite Ek. apply first_seen_In.
  - intros rw Hrw. apply in_map_iff in Hrw as ([c ads] & <- & Hin).
    assert (Hads : ads = of_city c l).
    { pose proof (entry_of_In c ads (by_city l)) as He.
      rewrite keys_by_city in He. specialize (He (first_seen_NoDup _) Hin).
      rewrite entry_by_city in He. destruct (of_city c l); congruence. }
    cbn. rewrite Hads. auto.
Qed.

(** X13. The rows come in the order in which the cities first appear in the
    results, and the first column is wide enough for every city and for its
    five-letter heading. *)
Theorem report_order (results : list AdRecord) (t : Table) :
  print_report results = Some t ->
  map row_city (rows t) = first_seen (map city results) /\
  (5 <= col_city t)%nat /\
  forall rw, In rw (rows t) -> (len (row_city rw) <= col_city t)%nat.
Proof.
  intros Ht. destruct results as [|r0 rs]; [discriminate|].
  set (l := r0 :: rs) in *. unfold print_report in Ht. fold l in Ht.
  injection Ht as <-. cbn [rows col_city].
  split; [|split].
  - rewrite map_map. exact (keys_by_city l).
  - apply Nat.le_max_r.
  - intros rw Hrw. apply in_map_iff in Hrw as (e & <- & Hin). cbn.
    assert (Hmax : forall es : list (string * list AdRecord), In e es ->
              (len e.1 <= foldr Nat.max 0 (map (fun e => len e.1) es))%nat).
    { induction es as [|e' es IH]; cbn [map foldr In]; [intros []|].
      intros [->|Hin']; [apply Nat.le_max_l|].
      etransitivity; [apply IH, Hin'|apply Nat.le_max_r]. }
    etransitivity; [apply (Hmax _ Hin)|apply Nat.le_max_l].
Qed.

End ReportSpec.

(** ** Signal handling *)

Module SignalSpec.
Import Sink Orchestrator Observations.

(** X14. A first Ctrl+C sets the flag and does nothing else: no file is
    written, no call is made, the process goes on.  A Ctrl+C that finds the
    flag set ends the process with status 1 after a flush, so that the files
    hold all the records collected so far. *)
Theorem interrupts (st : RunState) :
  (shutdown_requested st = false ->
   (Signal.handle_signal st).2 = None /\
   shutdown_requested (Signal.handle_signal st).1 = true /\
   output (Signal.handle_signal st).1 = output st /\
   trace (Signal.handle_signal st).1 = trace st /\
   collected_results (Signal.handle_signal st).1 = collected_results st) /\
  (shutdown_requested st = true ->
   (Signal.handle_signal st).2 = Some 1 /\
   collected_results (Signal.handle_signal st).1 = collected_results st /\
   persisted (collected_results st) (output (Signal.handle_signal st).1)) /\
  (Signal.handle_signal (Signal.handle_signal st).1).2 = Some 1.
Proof.
  unfold Signal.handle_signal. destruct (shutdown_requested st) eqn:E; cbn.
  - rewrite E. split; [discriminate|]. split; [|reflexivity].
    intros _. split; [reflexivity|]. split; [reflexivity|].
    apply OrchestratorSpec.save_results_persists.
  - split; [|split; [discriminate|reflexivity]].
    intros _. auto.
Qed.

End SignalSpec.

(** ** Scan orchestrator *)

Module RunLaws.
Import Config Extractor Sink Orchestrator Observations MoreObservations OrchestratorSpec.

Section Run.
Context `{Runtime}.
Variable world : World.
Variable cfg : ScanConfig.
Variable keywords : list (list string).

Lemma extract_ads_in_loop (page : Page) (city : string) :
  forallb in_loop (extract_ads page city cfg).1 = true.
Proof.
  unfold extract_ads. destruct (selector_found page); [|reflexivity].
  destruct (EXTRACT_ADS_JS (container page)); reflexivity.
Qed.

(** The retry loop only adds calls, at most one navigation per attempt, and
    none of them opens or closes the browser. *)
Lemma navigations_cons (e : event) (calls : list event) :
  navigations (e :: calls) = ((if is_goto e then 1 else 0) + navigations calls)%nat.
Proof. unfold navigations. cbn. destruct (is_goto e); reflexivity. Qed.

Lemma attempts_loop_calls (attempts : list Z) (i : Z) (city url : string) (st : RunState) :
  exists calls,
    trace (attempts_loop world cfg keywords attempts i city url st).1 = trace st ++ calls /\
    forallb in_loop calls = true /\
    (navigations calls <= length attempts)%nat.
Proof.
  revert st. induction attempts as [|a rest IH]; intros st; cbn [attempts_loop].
  - exists []. cbn. rewrite app_nil_r. auto.
  - destruct (goto world i a) as [|page].
    + destruct (IH (emit (Sleep 10 20) (emit (Goto url (page_timeout cfg)) st)))
        as (calls & -> & Hl & Hn).
      exists (Goto url (page_timeout cfg) :: Sleep 10 20 :: calls). split; [|split].
      * cbn. rewrite <- !app_assoc. reflexivity.
      * exact Hl.
      * rewrite !navigations_cons. cbn [is_goto length]. lia.
    + destruct (looks_like_captcha page).
      * destruct (IH (emit (Sleep 60 120) (emit (Goto url (page_timeout cfg)) st)))
          as (calls & -> & Hl & Hn).
        exists (Goto url (page_timeout cfg) :: Sleep 60 120 :: calls). split; [|split].
        -- cbn. rewrite <- !app_assoc. reflexivity.
        -- exact Hl.
        -- rewrite !navigations_cons. cbn [is_goto length]. lia.
      * pose proof (extract_ads_in_loop page city) as Hex.
        destruct (extract_ads_calls page city cfg) as (Hen & _).
        destruct (extract_ads page city cfg) as [ecalls [ads|]]; cbn [fst] in *.
        -- exists (Goto url (page_timeout cfg) :: ecalls ++
                   [SaveResults (collected_results st ++
                      map (stamp city (now world) keywords) ads) city]).
           split; [|split].
           ++ cbn. autorewrite with frame. cbn. rewrite <- !app_assoc. reflexivity.
           ++ cbn [forallb in_loop andb]. rewrite forallb_app, Hex. reflexivity.
           ++ rewrite navigations_cons, navigations_app, Hen, navigations_cons.
              cbn [is_goto length]. unfold navigations. cbn. lia.
        -- destruct (IH (emit (Sleep 10 20) (emits ecalls (emit (Goto url (page_timeout cfg)) st))))
             as (calls & -> & Hl & Hn).
           exists (Goto url (page_timeout cfg) :: ecalls ++ Sleep 10 20 :: calls).
           split; [|split].
           ++ cbn. autorewrite with frame. cbn. rewrite <- !app_assoc. reflexivity.
           ++ cbn [forallb in_loop andb]. rewrite forallb_app, Hex. exact Hl.
           ++ rewrite navigations_cons, navigations_app, Hen, navigations_cons.
              cbn [is_goto length]. lia.
Qed.

Lemma delay_calls (i : Z) (st : RunState) :
  exists calls,
    trace (delay cfg i st).1 = trace st ++ calls /\
    forallb in_loop calls = true /\ navigations calls = 0%nat.
Proof.
  unfold delay. destruct (long_pause_every cfg =? 0)%Z.
  - exists []. cbn. rewrite app_nil_r. auto.
  - destruct (i mod long_pause_every cfg =? 0)%Z; eexists [_]; cbn; auto.
Qed.

Lemma city_body_calls (category_path : string) (query : option string)
    (i : Z) (city : string) (st : RunState) :
  exists calls,
    trace (city_body world cfg keywords category_path query i city st).1 = trace st ++ calls /\
    forallb in_loop calls = true /\
    (navigations calls <= Z.to_nat (max_retries cfg + 1))%nat.
Proof.
  rewrite city_body_unfold. cbn zeta. unfold attempted.
  destruct (attempts_loop_calls (range (max_retries cfg + 1)) i city
              (target_url city category_path query)
              (if sigint world i then handle_signal st else st)) as (calls & Htr & Hl & Hn).
  rewrite length_range in Hn.
  destruct (signal_frame world i st) as (St & _). rewrite St in Htr.
  set (tried := attempts_loop _ _ _ _ _ _ _ _) in *.
  assert (Hd : forall st1, trace st1 = trace tried.1 ->
             exists calls',
               trace (delay cfg i st1).1 = trace st ++ calls' /\
               forallb in_loop calls' = true /\
               (navigations calls' <= Z.to_nat (max_retries cfg + 1))%nat).
  { intros st1 E. destruct (delay_calls i st1) as (dcalls & -> & Hdl & Hdn).
    exists (calls ++ dcalls). rewrite E, Htr, <- app_assoc.
    rewrite forallb_app, Hl, Hdl, navigations_app, Hdn. repeat split; auto. lia. }
  destruct (tried.2).
  - apply Hd. reflexivity.
  - destruct (5 <=? _)%Z.
    + exists calls. cbn. auto.
    + apply Hd. reflexivity.
Qed.

Lemma cities_loop_calls (category_path : string) (query : option string)
    (targets : list (Z * string)) (st : RunState) :
  exists calls,
    trace (cities_loop world cfg keywords category_path query targets st).1 = trace st ++ calls /\
    forallb in_loop calls = true /\
    (navigations calls <= length targets * Z.to_nat (max_retries cfg + 1))%nat.
Proof.
  revert st. induction targets as [|[i city] rest IH]; intros st; cbn [cities_loop].
  - exists []. cbn. rewrite app_nil_r. auto.
  - destruct (shutdown_requested st).
    + exists []. cbn. rewrite app_nil_r. repeat split; auto. lia.
    + destruct (city_body_calls category_path query i city st) as (calls & Htr & Hl & Hn).
      destruct (city_body _ _ _ _ _ _ _ _) as [st1 c]; cbn [fst] in *.
      destruct c as [| |e]; cbn [fst].
      * destruct (IH st1) as (calls' & -> & Hl' & Hn').
        exists (calls ++ calls'). rewrite Htr, <- app_assoc, forallb_app, Hl, Hl', navigations_app.
        repeat split; auto. cbn [length]. lia.
      * exists calls. repeat split; auto. cbn [length]. lia.
      * exists calls. repeat split; auto. cbn [length]. lia.
Qed.

Lemma length_enumerate {A} (start : Z) (l : list A) : length (enumerate start l) = length l.
Proof. revert start. induction l as [|x l IH]; intros start; cbn; [reflexivity|]. rewrite IH. reflexivity. Qed.

Lemma run_unfold (category_path : string) (cities : list string) (skip : Z)
    (query : option string) (st : RunState) :
  run world cfg keywords category_path cities skip query st =
  match remaining skip cities with
  | [] => (st, NoTargets)
  | c :: cs =>
      let opened := emit (Goto "https://www.avito.ru" (page_timeout cfg))
                      (emit (Launch (headless cfg)) (set_consecutive_errors 0 st)) in
      let looped :=
        if warm_up world
        then cities_loop world cfg keywords category_path query (enumerate 1 (c :: cs))
               (emit (Sleep 3 5) opened)
        else (opened, Raised NavigationError) in
      let closed := emit CloseBrowser looped.1 in
      match looped.2 with
      | Raised e => (closed, Raised e)
      | out => (emit (PrintReport (collected_results closed)) (flush "" closed), out)
      end
  end.
Proof.
  unfold run, remaining.
  destruct (if (0 <? skip)%Z then drop (Z.to_nat skip) cities else cities) as [|c cs];
    [reflexivity|].
  cbn zeta. destruct (warm_up world).
  - destruct (cities_loop _ _ _ _ _ _ _) as [st1 out]. cbn [fst snd].
    destruct out; reflexivity.
  - reflexivity.
Qed.

Lemma run_shape (category_path : string) (cities : list string) (skip : Z)
    (query : option string) (st : RunState) :
  run world cfg keywords category_path cities skip query st = (st, NoTargets) \/
  (run world cfg keywords category_path cities skip query st).2 <> NoTargets /\
  exists middle tail,
    trace (run world cfg keywords category_path cities skip query st).1 =
      trace st ++ Launch (headless cfg) :: middle ++ CloseBrowser :: tail /\
    forallb in_loop middle = true /\
    forallb offline tail = true.
Proof.
  rewrite run_unfold. destruct (remaining skip cities) as [|c cs]; [left; reflexivity|].
  right. cbn zeta. destruct (warm_up world).
  - destruct (cities_loop_calls category_path query (enumerate 1 (c :: cs))
                (emit (Sleep 3 5) (emit (Goto "https://www.avito.ru" (page_timeout cfg))
                   (emit (Launch (headless cfg)) (set_consecutive_errors 0 st)))))
      as (calls & Htr & Hl & _).
    pose proof (cities_loop_has_targets world cfg keywords category_path query
                  (enumerate 1 (c :: cs))
                  (emit (Sleep 3 5) (emit (Goto "https://www.avito.ru" (page_timeout cfg))
                     (emit (Launch (headless cfg)) (set_consecutive_errors 0 st))))) as Hnt.
    destruct (cities_loop _ _ _ _ _ _ _) as [st1 out]. cbn [fst snd] in *.
    split; [destruct out; cbn; congruence|].
    exists (Goto "https://www.avito.ru" (page_timeout cfg) :: Sleep 3 5 :: calls).
    destruct out; eexists; cbn; rewrite Htr; cbn; rewrite <- !app_assoc; cbn;
      (split; [reflexivity|split; [exact Hl|reflexivity]]).
  - split; [discriminate|].
    exists [Goto "https://www.avito.ru" (page_timeout cfg)], []. cbn.
    rewrite <- !app_assoc. auto.
Qed.

(** X15. Whenever there is a target, the browser is launched once, as the
    first call of the run, and closed once, on every way out of the run, an
    exception included.  Between the two there are only navigations, waits,
    pauses and writes; after the closing nothing needs the browser: there
    is at most the final flush and the report. *)
Theorem browser_lifecycle (category_path : string) (cities : list string) (skip : Z)
    (query : option string) (st : RunState) :
  (run world cfg keywords category_path cities skip query st).2 <> NoTargets ->
  exists middle tail,
    trace (run world cfg keywords category_path cities skip query st).1 =
      trace st ++ Launch (headless cfg) :: middle ++ CloseBrowser :: tail /\
    forallb in_loop middle = true /\
    forallb offline tail = true.
Proof.
  intros Hn. destruct (run_shape category_path cities skip query st) as [E|[_ Hs]].
  - rewrite E in Hn. exfalso. apply Hn. reflexivity.
  - exact Hs.
Qed.

(** X16. A run navigates at most once for the warm-up and [max_retries + 1]
    times for each city left after the skip offset. *)
Theorem navigation_bound (category_path : string) (cities : list string) (skip : Z)
    (query : option string) (st : RunState) :
  exists calls,
    trace (run world cfg keywords category_path cities skip query st).1 = trace st ++ calls /\
    (navigations calls <=
     1 + length (remaining skip cities) * Z.to_nat (max_retries cfg + 1))%nat.
Proof.
  rewrite run_unfold. destruct (remaining skip cities) as [|c cs] eqn:Er.
  - exists []. cbn. rewrite app_nil_r. split; [reflexivity|]. unfold navigations. cbn. lia.
  - cbn zeta. destruct (warm_up world).
    + destruct (cities_loop_calls category_path query (enumerate 1 (c :: cs))
                  (emit (Sleep 3 5) (emit (Goto "https://www.avito.ru" (page_timeout cfg))
                     (emit (Launch (headless cfg)) (set_consecutive_errors 0 st)))))
        as (calls & Htr & _ & Hn).
      rewrite length_enumerate in Hn.
      destruct (cities_loop _ _ _ _ _ _ _) as [st1 out]. cbn [fst snd] in *.
      assert (Hnav : forall tail, navigations tail = 0%nat ->
                (navigations (Launch (headless cfg) ::
                    Goto "https://www.avito.ru" (page_timeout cfg) :: Sleep 3 5 ::
                    calls ++ CloseBrowser :: tail) <=
                 1 + length (c :: cs) * Z.to_nat (max_retries cfg + 1))%nat).
      { intros tail Ht. rewrite !navigations_cons, navigations_app, navigations_cons, Ht.
        cbn [is_goto]. lia. }
      destruct out;
        (eexists; split;
         [cbn; rewrite Htr; cbn; rewrite <- !app_assoc; cbn; reflexivity
         |apply Hnav; reflexivity]).
    + eexists. split; [cbn; rewrite <- !app_assoc; cbn; reflexivity|].
      unfold navigations. cbn. lia.
Qed.

Lemma city_body_counter (category_path : string) (query : option string)
    (i : Z) (city : string) (st : RunState) :
  (consecutive_errors (city_body world cfg keywords category_path query i city st).1 = 0 \/
   consecutive_errors (city_body world cfg keywords category_path query i city st).1 =
     consecutive_errors st + 1) /\
  ((city_body world cfg keywords category_path query i city st).2 = Break ->
   5 <= consecutive_errors (city_body world cfg keywords category_path query i city st).1 /\
   consecutive_errors (city_body world cfg keywords category_path query i city st).1 =
     consecutive_errors st + 1).
Proof.
  rewrite city_body_unfold. cbn zeta. unfold attempted.
  destruct (attempts_loop_summary world cfg keywords (range (max_retries cfg + 1)) i city
              (target_url city category_path query)
              (if sigint world i then handle_signal st else st))
    as [calls k _ _ _ _ _ Hfail Hok].
  destruct (signal_frame world i st) as (_ & _ & _ & Se & _). rewrite Se in Hfail.
  set (tried := attempts_loop _ _ _ _ _ _ _ _) in *.
  destruct (tried.2).
  - destruct (Hok eq_refl) as (? & ? & ? & ? & ? & ? & _ & _ & _ & _ & _ & _ & _ & He & _).
    destruct (delay_frame cfg i tried.1) as (_ & _ & Ed & _). rewrite Ed, He.
    split; [auto|].
    unfold delay. destruct (long_pause_every cfg =? 0)%Z; [discriminate|].
    destruct (i mod long_pause_every cfg =? 0)%Z; discriminate.
  - destruct (Hfail eq_refl) as (_ & _ & _ & He & _).
    cbn [consecutive_errors set_consecutive_errors]. rewrite He.
    destruct (Z.leb_spec 5 (consecutive_errors st + 1)) as [Hge|Hlt];
      cbn [fst snd consecutive_errors set_consecutive_errors].
    + split; [auto|]. intros _. split; [exact Hge|reflexivity].
    + destruct (delay_frame cfg i (set_consecutive_errors (consecutive_errors st + 1) tried.1))
        as (_ & _ & Ed & _). rewrite Ed. cbn. split; [auto|].
      unfold delay. destruct (long_pause_every cfg =? 0)%Z; [discriminate|].
      destruct (i mod long_pause_every cfg =? 0)%Z; discriminate.
Qed.

Lemma cities_loop_counter (category_path : string) (query : option string)
    (targets : list (Z * string)) (st : RunState) :
  0 <= consecutive_errors st ->
  (cities_loop world cfg keywords category_path query targets st).2 = EarlyAbort ->
  5 <= consecutive_errors (cities_loop world cfg keywords category_path query targets st).1 /\
  5 <= consecutive_errors st + Z.of_nat (length targets).
Proof.
  revert st. induction targets as [|[i city] rest IH]; intros st Hpos; cbn [cities_loop].
  - discriminate.
  - destruct (shutdown_requested st); [discriminate|].
    destruct (city_body_counter category_path query i city st) as (Hle & Hbreak).
    destruct (city_body _ _ _ _ _ _ _ _) as [st1 c]; cbn [fst snd] in *.
    destruct c as [| |e]; cbn [fst snd]; [|intros _|discriminate].
    + intros Hab. destruct (IH st1) as (H5 & Hn); [lia|exact Hab|].
      split; [exact H5|]. cbn [length]. lia.
    + destruct (Hbreak eq_refl) as (H5 & E). split; [exact H5|]. cbn [length]. lia.
Qed.

(** X17. The early abort is reached only with five failures in a row: a run
    that ends by it leaves the counter at 5 or more and had at least five
    cities to go through. *)
Theorem early_abort_needs_five (category_path : string) (cities : list string) (skip : Z)
    (query : option string) (st : RunState) :
  (run world cfg keywords category_path cities skip query st).2 = EarlyAbort ->
  5 <= consecutive_errors (run world cfg keywords category_path cities skip query st).1 /\
  (5 <= length (remaining skip cities))%nat.
Proof.
  rewrite run_unfold. destruct (remaining skip cities) as [|c cs]; [discriminate|].
  cbn zeta. destruct (warm_up world); [|discriminate].
  pose proof (cities_loop_counter category_path query (enumerate 1 (c :: cs))
                (emit (Sleep 3 5) (emit (Goto "https://www.avito.ru" (page_timeout cfg))
                   (emit (Launch (headless cfg)) (set_consecutive_errors 0 st))))) as Hc.
  rewrite length_enumerate in Hc.
  destruct (cities_loop _ _ _ _ _ _ _) as [st1 out]. cbn [fst snd] in *.
  destruct out; try discriminate. intros _.
  destruct Hc as (H5 & Hn); [cbn; lia|reflexivity|]. cbn in Hn |- *. split; [exact H5|lia].
Qed.

(** X18. Nothing happens when the skip offset leaves no city: the run
    returns the state it got, with no browser launched and no file written.
    This is the case exactly when the list of cities is not longer than the
    offset. *)
Theorem nothing_to_scan (category_path : string) (cities : list string) (skip : Z)
    (query : option string) (st : RunState) :
  ((run world cfg keywords category_path cities skip query st).2 = NoTargets <->
   Z.of_nat (length cities) <= Z.max 0 skip) /\
  ((run world cfg keywords category_path cities skip query st).2 = NoTargets ->
   (run world cfg keywords category_path cities skip query st).1 = st).
Proof.
  assert (Hrem : remaining skip cities = [] <-> Z.of_nat (length cities) <= Z.max 0 skip).
  { unfold remaining. destruct (Z.ltb_spec 0 skip) as [Hpos|Hneg].
    - split; [intros E; apply drop_nil_inv in E; lia|intros Hl; apply drop_ge; lia].
    - destruct cities; cbn [length]; split; intros; try congruence; try lia. }
  assert (Hout : (run world cfg keywords category_path cities skip query st).2 = NoTargets <->
                 remaining skip cities = []).
  { rewrite run_unfold. destruct (remaining skip cities) as [|c cs]; [tauto|].
    cbn zeta. split; [|discriminate]. destruct (warm_up world); [|discriminate].
    pose proof (cities_loop_has_targets world cfg keywords category_path query
                  (enumerate 1 (c :: cs))
                  (emit (Sleep 3 5) (emit (Goto "https://www.avito.ru" (page_timeout cfg))
                     (emit (Launch (headless cfg)) (set_consecutive_errors 0 st))))) as Hnt.
    destruct (cities_loop _ _ _ _ _ _ _) as [st1 out]. cbn [fst snd] in *.
    destruct out; try discriminate. contradiction. }
  split.
  - rewrite Hout. exact Hrem.
  - intros Hn. apply Hout in Hn. rewrite run_unfold, Hn. reflexivity.
Qed.

Lemma emits_app (a b : list event) (st : RunState) : emits (a ++ b) st = emits b (emits a st).
Proof. unfold emits. apply foldl_app. Qed.

(** X19. A target whose every attempt is blocked costs one navigation and
    one pause of 60 to 120 seconds per attempt and nothing else: the
    extractor is never called, no debug HTML is saved, no record is added,
    and the target fails. *)
Theorem blocked_target (attempts : list Z) (i : Z) (city url : string) (st : RunState) :
  (forall a, In a attempts -> blocked world i a = true) ->
  attempts_loop world cfg keywords attempts i city url st =
  (emits (flat_map (fun _ => [Goto url (page_timeout cfg); Sleep 60 120]) attempts) st, false).
Proof.
  revert st. induction attempts as [|a rest IH]; intros st Hall; [reflexivity|].
  cbn [attempts_loop flat_map].
  pose proof (Hall a (or_introl eq_refl)) as Ha. unfold blocked in Ha.
  destruct (goto world i a) as [|page]; [discriminate|]. rewrite Ha.
  rewrite IH by (intros a' Ha'; apply Hall; right; exact Ha').
  rewrite emits_app. reflexivity.
Qed.

(** The files of a run started in a fresh process. *)
Lemma run_files (category_path : string) (cities : list string) (skip : Z)
    (query : option string) (files : gmap string content) :
  let final := (run world cfg keywords category_path cities skip query (initial files)).1 in
  Forall (fun r => _run_ts r = now world) (collected_results final) /\
  persisted (collected_results final) (output final) /\
  forall path, path <> csv_path (now world) -> path <> json_path (now world) ->
    output final !! path = files !! path.
Proof.
  apply (run_inv world cfg keywords
           (fun st => Forall (fun r => _run_ts r = now world) (collected_results st) /\
                      persisted (collected_results st) (output st) /\
                      forall path, path <> csv_path (now world) -> path <> json_path (now world) ->
                        output st !! path = files !! path)); auto.
  - intros city ads st (Hts & _ & Hiso).
    assert (Hts' : Forall (fun r => _run_ts r = now world)
                     (collected_results st ++ map (stamp city (now world) keywords) ads)).
    { apply Forall_app. split; [exact Hts|].
      apply Forall_forall. intros r Hr. apply list_elem_of_fmap in Hr as (a & -> & _).
      reflexivity. }
    cbn. split; [exact Hts'|]. split; [apply save_results_persists|].
    intros path Hc Hj.
    destruct (collected_results st ++ map (stamp city (now world) keywords) ads)
      as [|r0 rs] eqn:E; cbn; [auto|].
    apply Forall_inv in Hts'. rewrite Hts'.
    rewrite !lookup_insert_ne by auto. auto.
  - cbn. repeat split; auto.
Qed.


(** X21. A run writes to the two files named after its own time stamp and
    to no other: every other file of the output directory is left as it
    was. *)
Theorem run_touches_only_its_files (category_path : string) (cities : list string)
    (skip : Z) (query : option string) (files : gmap string content) (path : string) :
  path <> csv_path (now world) -> path <> json_path (now world) ->
  output (run world cfg keywords category_path cities skip query (initial files)).1 !! path =
  files !! path.
Proof.
  intros Hc Hj.
  destruct (run_files category_path cities skip query files) as (_ & _ & Hiso).
  apply Hiso; assumption.
Qed.


End Run.
End RunLaws.

(** ** Command line *)

Module MainLaws.
Import Config Extractor Sink Orchestrator Observations MoreObservations.





End MainLaws.

(** ** Target list and keyword rule sources *)

Module LoadersSpec.
Import Loaders.

Lemma cons_app (c : ascii) (a b : string) : String c a +:+ b = String c (a +:+ b).
Proof. reflexivity. Qed.

Lemma app_nil_r_s (s : string) : s +:+ "" = s.
Proof. induction s as [|c s IH]; [reflexivity|]. rewrite cons_app, IH. reflexivity. Qed.

(** A white-space character at the head of a text is there whatever
    follows the text. *)
Lemma space_at_app (a b : string) (k : nat) :
  space_at a = S k -> space_at (a +:+ b) = S k.
Proof.
  destruct a as [|c1 [|c2 [|c3 a]]]; rewrite ?cons_app; unfold space_at.
  - discriminate.
  - destruct (Url.in_range 9 13 c1 || Url.in_range 28 32 c1); [auto|discriminate].
  - destruct (Url.in_range 9 13 c1 || Url.in_range 28 32 c1); [auto|].
    destruct (byte_is 194 c1); [auto|discriminate].
  - auto.
Qed.

Lemma space_at_length (s : string) (k : nat) :
  space_at s = S k -> (S k <= String.length s)%nat.
Proof.
  destruct s as [|c1 [|c2 [|c3 s]]]; unfold space_at; cbn [String.length].
  - discriminate.
  - destruct (_ || _); intros [= <-]; lia.
  - destruct (_ || _); [intros [= <-]; lia|].
    destruct (byte_is 194 c1); [|discriminate].
    destruct (_ || _); intros [= <-]; lia.
  - destruct (_ || _); [intros [= <-]; lia|].
    destruct (byte_is 194 c1); [destruct (_ || _); intros [= <-]; lia|].
    repeat (destruct (_ && _); [intros [= <-]; lia|]). discriminate.
Qed.

Lemma lstrip_from_head (skip : nat) (s : string) : space_at (lstrip_from skip s) = 0%nat.
Proof.
  revert skip. induction s as [|c s IH]; intros skip; [reflexivity|].
  cbn [lstrip_from]. destruct skip as [|k]; [|apply IH].
  destruct (space_at (String c s)) eqn:E; [exact E|apply IH].
Qed.

Lemma rstrip_prefix (s : string) : exists rest, s = rstrip s +:+ rest /\ all_space rest = true.
Proof.
  induction s as [|c s (rest & IH & Hrest)].
  - exists "". split; reflexivity.
  - cbn [rstrip]. destruct (all_space (String c s)) eqn:E.
    + exists (String c s). split; [reflexivity|exact E].
    + exists rest. rewrite cons_app, <- IH. split; [reflexivity|exact Hrest].
Qed.

Lemma strip_head (s : string) : space_at (strip s) = 0%nat.
Proof.
  unfold strip, lstrip.
  destruct (rstrip_prefix (lstrip_from 0 s)) as (rest & E & _).
  destruct (space_at (rstrip (lstrip_from 0 s))) as [|k] eqn:Ek; [reflexivity|].
  apply (space_at_app _ rest) in Ek. rewrite <- E, lstrip_from_head in Ek. discriminate.
Qed.

Lemma all_space_from_app (k : nat) (t rest : string) :
  (k <= String.length t)%nat ->
  all_space_from k t = true -> all_space rest = true ->
  all_space_from k (t +:+ rest) = true.
Proof.
  revert k. induction t as [|c t IH]; intros k Hk Ht Hrest.
  - cbn in Hk. replace k with 0%nat by lia. exact Hrest.
  - rewrite cons_app. cbn [all_space_from] in *. destruct k as [|k].
    + destruct (space_at (String c t)) as [|k'] eqn:E; [discriminate|].
      pose proof (space_at_length _ _ E) as Hlen. cbn [String.length] in Hlen.
      rewrite <- cons_app, (space_at_app _ rest _ E). apply IH; [lia|exact Ht|exact Hrest].
    + cbn [String.length] in Hk. apply IH; [lia|exact Ht|exact Hrest].
Qed.

(** Text that was stripped on the right ends with no white space. *)
Lemma rstrip_idempotent (s : string) : rstrip (rstrip s) = rstrip s.
Proof.
  induction s as [|c s IH]; [reflexivity|].
  cbn [rstrip]. destruct (all_space (String c s)) eqn:E; [reflexivity|].
  cbn [rstrip]. rewrite IH.
  destruct (all_space (String c (rstrip s))) eqn:E'; [|reflexivity].
  exfalso. destruct (rstrip_prefix s) as (rest & Es & Hrest).
  assert (Hall : all_space (String c s) = true).
  { rewrite Es at 1. rewrite <- cons_app. apply all_space_from_app; [lia|exact E'|exact Hrest]. }
  congruence.
Qed.

Lemma lstrip_fixed (s : string) : space_at s = 0%nat -> lstrip s = s.
Proof.
  intros E. unfold lstrip. destruct s as [|c s]; [reflexivity|].
  cbn [lstrip_from]. rewrite E. reflexivity.
Qed.

Lemma strip_idempotent (s : string) : strip (strip s) = strip s.
Proof.
  rewrite <- (lstrip_fixed (strip s)) at 2 by apply strip_head.
  unfold strip at 1. rewrite (lstrip_fixed (strip s)) by apply strip_head.
  unfold strip. apply rstrip_idempotent.
Qed.

Lemma pieces_head_prefix (s w : string) (ws : list string) :
  pieces_from 0 s = w :: ws -> exists rest, s = w +:+ rest.
Proof.
  revert w ws. induction s as [|c s IH]; intros w ws; cbn [pieces_from].
  - intros [= <- _]. exists "". reflexivity.
  - destruct (space_at (String c s)).
    + destruct (pieces_from 0 s) as [|w' ws'] eqn:E.
      * intros [= <- _]. exists s. reflexivity.
      * intros [= <- _]. destruct (IH _ _ eq_refl) as (rest & ->).
        exists rest. reflexivity.
    + intros [= <- _]. exists (String c s). reflexivity.
Qed.

Lemma pieces_not_nil (skip : nat) (s : string) : pieces_from skip s <> [].
Proof.
  revert skip. induction s as [|c s IH]; intros skip; cbn [pieces_from]; [discriminate|].
  destruct skip as [|k]; [|apply IH].
  destruct (space_at (String c s)); [|discriminate].
  destruct (pieces_from 0 s); discriminate.
Qed.

(** Every piece is one piece: it holds no white space. *)
Lemma pieces_whole (skip : nat) (s : string) :
  Forall (fun w => pieces_from 0 w = [w]) (pieces_from skip s).
Proof.
  revert skip. induction s as [|c s IH]; intros skip; cbn [pieces_from].
  - repeat constructor.
  - destruct skip as [|k]; [|apply IH].
    destruct (space_at (String c s)) as [|k] eqn:E.
    + specialize (IH 0%nat).
      destruct (pieces_from 0 s) as [|w ws] eqn:Ep.
      * exfalso. exact (pieces_not_nil 0 s Ep).
      * inversion IH as [|? ? Hw Hws]; subst. constructor; [|exact Hws].
        destruct (pieces_head_prefix _ _ _ Ep) as (rest & ->).
        cbn [pieces_from].
        destruct (space_at (String c w)) as [|k] eqn:Ew.
        -- rewrite Hw. reflexivity.
        -- apply (space_at_app _ rest) in Ew. rewrite cons_app in Ew. congruence.
    + constructor; [reflexivity|apply IH].
Qed.

Lemma split_words (s w : string) : In w (split s) -> w <> "" /\ split w = [w].
Proof.
  unfold split. rewrite filter_In. intros [Hin Hne].
  split; [destruct w; [discriminate|discriminate]|].
  pose proof (pieces_whole 0 s) as Hall. rewrite Forall_forall in Hall.
  rewrite (Hall w) by (apply list_elem_of_In; exact Hin).
  cbn. rewrite Hne. reflexivity.
Qed.

Lemma split_head (c : ascii) (s : string) :
  space_at (String c s) = 0%nat ->
  exists w ws, split (String c s) = String c w :: ws.
Proof.
  intros E. unfold split. cbn [pieces_from]. rewrite E.
  destruct (pieces_from 0 s) as [|w ws]; cbn; eauto.
Qed.

Lemma load_keywords_snoc (f : list string) (line : string) :
  load_keywords (f ++ [line]) = add_group (load_keywords f) line.
Proof. unfold load_keywords. rewrite foldl_app. reflexivity. Qed.

Lemma load_keywords_In (f : list string) (g : list string) :
  In g (load_keywords f) ->
  exists line, In line f /\ g = split (strip line) /\
               nonempty (strip line) = true /\ Str.startswith (strip line) "#" = false.
Proof.
  induction f as [|line f IH] using rev_ind; [intros []|].
  rewrite load_keywords_snoc. unfold add_group.
  destruct (nonempty (strip line)) eqn:En; cbn [andb negb].
  - destruct (Str.startswith (strip line) "#") eqn:Es; cbn [negb].
    + intros Hin. destruct (IH Hin) as (l & Hl & Hg). exists l. split; [|exact Hg].
      apply in_or_app. auto.
    + intros Hin. apply in_app_or in Hin as [Hin|[<-|[]]].
      * destruct (IH Hin) as (l & Hl & Hg). exists l. split; [|exact Hg].
        apply in_or_app. auto.
      * exists line. split; [apply in_or_app; right; left; reflexivity|auto].
  - intros Hin. destruct (IH Hin) as (l & Hl & Hg). exists l. split; [|exact Hg].
    apply in_or_app. auto.
Qed.

(** X24. A loaded keyword rule has no empty group and no empty word; every
    word is one token, without white space in it, and the first word of a
    group does not begin with [#]. *)
Theorem load_keywords_groups (f : list string) (group : list string) :
  In group (load_keywords f) ->
  group <> [] /\
  (forall word, In word group -> word <> "" /\ split word = [word]) /\
  (forall word, head group = Some word -> Str.startswith word "#" = false).
Proof.
  intros Hin. apply load_keywords_In in Hin as (line & _ & -> & Hne & Hhash).
  pose proof (strip_head line) as Hsp.
  destruct (strip line) as [|c s]; [discriminate|].
  destruct (split_head c s Hsp) as (w & ws & E).
  split; [rewrite E; discriminate|]. split.
  - intros word. apply split_words.
  - rewrite E. intros word [= <-]. cbn in Hhash |- *. exact Hhash.
Qed.

(** X25. A loaded city is never empty and is stripped: it neither begins
    nor ends with white space. *)
Theorem load_cities_clean (f : list string) (c : string) :
  In c (load_cities f) -> c <> "" /\ strip c = c /\ space_at c = 0%nat.
Proof.
  unfold load_cities. rewrite in_map_iff. intros (line & <- & Hin).
  apply filter_In in Hin as [_ Hk]. apply andb_true_iff in Hk as [Hne _].
  split; [destruct (strip line); discriminate|].
  split; [apply strip_idempotent|apply strip_head].
Qed.

Lemma lstrip_all_space (skip : nat) (s : string) :
  all_space_from skip s = true -> lstrip_from skip s = "".
Proof.
  revert skip. induction s as [|c s IH]; intros skip; [reflexivity|].
  cbn [all_space_from lstrip_from]. destruct skip as [|k]; [|apply IH].
  destruct (space_at (String c s)); [discriminate|apply IH].
Qed.

Lemma strip_blank (line : string) : all_space line = true -> strip line = "".
Proof. intros Hb. unfold strip, lstrip. rewrite lstrip_all_space by exact Hb. reflexivity. Qed.

Lemma load_keywords_app (f1 f2 : list string) :
  load_keywords (f1 ++ f2) = load_keywords f1 ++ load_keywords f2.
Proof.
  induction f2 as [|line f2 IH] using rev_ind.
  - rewrite !app_nil_r. reflexivity.
  - rewrite app_assoc, !load_keywords_snoc, IH. unfold add_group.
    destruct (_ && _); [rewrite app_assoc|]; reflexivity.
Qed.

(** X26. Blank lines and comments change nothing.  For the keywords a line
    is a comment when its text begins with [#] after stripping; for the
    cities only when the line itself begins with [#]. *)
Theorem blank_lines_and_comments (f1 f2 : list string) (line : string) :
  (all_space line = true \/ Str.startswith (strip line) "#" = true ->
   load_keywords (f1 ++ line :: f2) = load_keywords (f1 ++ f2)) /\
  (all_space line = true \/ Str.startswith line "#" = true ->
   load_cities (f1 ++ line :: f2) = load_cities (f1 ++ f2)).
Proof.
  split; intros Hline.
  - rewrite !load_keywords_app. f_equal.
    change (line :: f2) with ([line] ++ f2). rewrite load_keywords_app.
    assert (E : load_keywords [line] = []).
    { unfold load_keywords. cbn. unfold add_group.
      destruct Hline as [Hb|Hc].
      - rewrite strip_blank by exact Hb. reflexivity.
      - rewrite Hc, andb_false_r. reflexivity. }
    rewrite E. reflexivity.
  - unfold load_cities. rewrite !List.filter_app. cbn [List.filter].
    assert (E : nonempty (strip line) && negb (Str.startswith line "#") = false).
    { destruct Hline as [Hb|Hc].
      - rewrite strip_blank by exact Hb. reflexivity.
      - rewrite Hc, andb_false_r. reflexivity. }
    rewrite E. reflexivity.
Qed.

(** X27. A loaded rule never matches for want of words: when [is_mine]
    holds with it, some non-empty word of the file is contained in the
    title, case apart. *)
Theorem loaded_rule_matches_on_a_word `{Runtime} (f : list string) (title : string) :
  Matcher.is_mine title (load_keywords f) = true ->
  exists group word,
    In group (load_keywords f) /\ In word group /\ word <> "" /\
    Str.str_in (lower word) (lower title) = true.
Proof.
  unfold Matcher.is_mine. intros Hm.
  apply existsb_exists in Hm as (group & Hin & Hall).
  pose proof (load_keywords_In f group Hin) as (line & _ & Eg & Hne & _).
  pose proof (strip_head line) as Hsp.
  destruct (strip line) as [|c s]; [discriminate|].
  destruct (split_head c s Hsp) as (w & ws & E).
  rewrite forallb_forall in Hall.
  exists group, (String c w).
  assert (Hw : In (String c w) group) by (rewrite Eg, E; left; reflexivity).
  split; [exact Hin|]. split; [exact Hw|]. split; [discriminate|].
  apply Hall, Hw.
Qed.

End LoadersSpec.

(** ** The further properties on concrete inputs *)

Module MoreExamples.
Import Config Extractor Sink Orchestrator Observations MoreObservations Scenarios MoreScenarios.

Lemma is_mine_monotone_witness :
  Matcher.is_mine (H := runtime) "Срочный РЕМОНТ телефонов, выезд" keywords = true.
Proof.
  apply (MatcherLaws.is_mine_monotone (H := runtime) "ремонт телефонов").
  - vm_compute. reflexivity.
  - vm_compute. reflexivity.
Defined.

Lemma parse_target_url_witness :
  Url.parse_category_path
    "https://www.avito.ru/all/uslugi/remont?q=%D1%80%D0%B5%D0%BC%D0%BE%D0%BD%D1%82+iphone" =
  inr ("uslugi/remont", Some "q=%D1%80%D0%B5%D0%BC%D0%BE%D0%BD%D1%82+iphone").
Proof.
  apply (proj1 (UrlLaws.parse_target_url "uslugi/remont" "ремонт iphone" eq_refl eq_refl
                  ltac:(discriminate))).
Defined.

Lemma parsed_query_is_encoded_witness :
  exists v, "q=a+b%26c" = "q=" +:+ v /\ Url.all_chars encoded_char v = true.
Proof.
  apply (UrlLaws.parsed_query_is_encoded
           "https://www.avito.ru/all/uslugi?x=1&q=a%20b%26c#top" "uslugi").
  vm_compute. reflexivity.
Defined.

Lemma save_results_overwrites_witness :
  save_results moskva_records "" (save_results (take 1 moskva_records) "moskva" ∅) =
  save_results moskva_records "" ∅.
Proof. apply SinkLaws.save_results_overwrites. reflexivity. Defined.

Lemma report_rows_witness :
  List.NoDup ["moskva"; "kazan"] /\
  Report.row_positions
    {| Report.row_city := "kazan"; Report.row_n := 1; Report.row_m := 1;
       Report.row_positions := [1] |} = [1].
Proof.
  destruct (ReportSpec.report_rows mixed_results mixed_table) as (Hnd & _ & Hrows).
  - vm_compute. reflexivity.
  - split; [exact Hnd|].
    destruct (Hrows {| Report.row_city := "kazan"; Report.row_n := 1; Report.row_m := 1;
                       Report.row_positions := [1] |}) as (_ & _ & Hp).
    + right. left. reflexivity.
    + rewrite Hp. vm_compute. reflexivity.
Defined.

Lemma report_order_witness :
  map Report.row_city (Report.rows mixed_table) = ["moskva"; "kazan"].
Proof.
  destruct (ReportSpec.report_order mixed_results mixed_table) as (Ho & _).
  - vm_compute. reflexivity.
  - rewrite Ho. vm_compute. reflexivity.
Defined.

Lemma browser_lifecycle_witness :
  exists middle tail,
    trace (run (H := runtime) (always (NavLoaded listing)) (settings 2 0) keywords "uslugi"
             ["moskva"; "spb"] 0 None (initial ∅)).1 =
      [] ++ Launch true :: middle ++ CloseBrowser :: tail /\
    forallb in_loop middle = true /\ forallb offline tail = true.
Proof.
  apply (RunLaws.browser_lifecycle (H := runtime) (always (NavLoaded listing)) (settings 2 0)
           keywords "uslugi" ["moskva"; "spb"] 0 None (initial ∅)).
  vm_compute. discriminate.
Defined.

Lemma early_abort_needs_five_witness :
  5 <= consecutive_errors
         (run (H := runtime) (always NavRaises) (settings 0 25) keywords "uslugi"
            ["a"; "b"; "c"; "d"; "e"; "f"; "g"] 0 None (initial ∅)).1.
Proof.
  apply (RunLaws.early_abort_needs_five (H := runtime) (always NavRaises) (settings 0 25)
           keywords "uslugi" ["a"; "b"; "c"; "d"; "e"; "f"; "g"] 0 None (initial ∅)).
  vm_compute. reflexivity.
Defined.


Lemma blocked_target_witness :
  trace (attempts_loop (H := runtime) (always (NavLoaded block_page)) (settings 2 25) keywords
           [0; 1] 1 "moskva" moskva_url (initial ∅)).1 =
  [Goto moskva_url 30000; Sleep 60 120; Goto moskva_url 30000; Sleep 60 120].
Proof.
  rewrite (RunLaws.blocked_target (H := runtime) (always (NavLoaded block_page)) (settings 2 25)
             keywords [0; 1] 1 "moskva" moskva_url (initial ∅)).
  - vm_compute. reflexivity.
  - intros a _. vm_compute. reflexivity.
Defined.

Lemma run_touches_only_its_files_witness :
  output (run (H := runtime) (always (NavLoaded listing)) (settings 2 25) keywords "uslugi"
            ["moskva"] 0 None (initial old_files)).1 !! "results_20231231_090000.csv" =
  Some (Csv fieldnames []).
Proof.
  rewrite (RunLaws.run_touches_only_its_files (H := runtime) (always (NavLoaded listing))
             (settings 2 25) keywords "uslugi" ["moskva"] 0 None old_files
             "results_20231231_090000.csv").
  - vm_compute. reflexivity.
  - vm_compute. discriminate.
  - vm_compute. discriminate.
Defined.

Lemma load_keywords_groups_witness :
  Loaders.split "телефон" = ["телефон"].
Proof.
  destruct (LoadersSpec.load_keywords_groups keywords_file ["ремонт"; "телефон"]) as (_ & Hw & _).
  - vm_compute. left. reflexivity.
  - apply (Hw "телефон"). right. left. reflexivity.
Defined.

Lemma load_cities_clean_witness :
  Loaders.strip "sankt-peterburg" = "sankt-peterburg".
Proof.
  destruct (LoadersSpec.load_cities_clean cities_file "sankt-peterburg") as (_ & Hs & _).
  - vm_compute. right. left. reflexivity.
  - exact Hs.
Defined.

Lemma loaded_rule_matches_on_a_word_witness :
  exists group word,
    In group (Loaders.load_keywords keywords_file) /\ In word group /\ word <> "" /\
    Str.str_in (lower (Runtime := runtime) word)
      (lower (Runtime := runtime) "Чехол для iPhone 13") = true.
Proof.
  apply (LoadersSpec.loaded_rule_matches_on_a_word (H := runtime) keywords_file
           "Чехол для iPhone 13").
  vm_compute. reflexivity.
Defined.

End MoreExamples.
